(** * pbalign: the bowtie2 alignment service ([pbalign/alignservice/bowtie.py])

    A shallow embedding of the module: the index path helpers [bt2BaseName]
    and [bt2IndexFiles], and the methods of [BowtieService]
    ([_resolveAlgorithmOptions], [_bt2BuildIndex], [_preProcess], [_toCmd]).

    Python values that the options object holds are embedded as [PyVal];
    the options object is mutated in place by the source, so the methods run
    in a state-and-exception monad over the current contents of that object.
    Calls to [logging] only write to the log and are left out. *)

From Equations Require Import Equations.
From Stdlib Require Import List Arith ZArith Lia Bool Ascii String DecimalString.
Import ListNotations.
Open Scope string_scope.

(** ** Python values and built-ins *)

Module Py.

(** The values an option field can hold: [None], an [int] or a [str]. *)
Inductive PyVal : Type :=
| VNone
| VInt (z : Z)
| VStr (s : string).

Definition is_None (v : PyVal) : bool :=
  match v with VNone => true | _ => false end.

(** [v != ""] *)
Definition ne_empty (v : PyVal) : bool :=
  match v with VStr "" => false | _ => true end.

(** [str(z)] for an int. *)
Definition str_of_Z (z : Z) : string := NilZero.string_of_int (Z.to_int z).

(** [str(v)], which is what ["{x}".format(x=v)] inserts. *)
Definition str (v : PyVal) : string :=
  match v with
  | VNone => "None"
  | VInt z => str_of_Z z
  | VStr s => s
  end.

(** Exceptions. [ValueError msg] is a [ValueError] raised by the module itself
    with message [msg]; [IntLiteralError] is the [ValueError] that [int()]
    raises on a string that is no literal.  [ParsingError ao cause] is the
    [ValueError] that the handler of [_resolveAlgorithmOptions] raises: its
    message is the text [parsingErrMsg ao] followed by [str(cause)]. *)
Inductive exn : Type :=
| ValueError (msg : string)
| IntLiteralError (lit : string)
| TypeError
| IndexError
| AttributeError (attr : string)
| RuntimeError (msg : string)
| ParsingError (ao : string) (cause : exn).

Inductive outcome (A : Type) : Type :=
| Return (a : A)
| Raise (e : exn).
Arguments Return {A} a.
Arguments Raise {A} e.

(** *** [int()] on strings (Python 3)

    A string is read as its sequence of characters, each with a code point
    below 256.  [int] accepts surrounding whitespace, an optional sign, and
    decimal digits with single underscores between them. *)

(** The whitespace that [int] skips at both ends: tab, line feed, vertical
    tab, form feed, carriage return, blank, and the two whitespace characters
    above 127, next line (133) and no-break space (160). *)
Definition is_space (c : ascii) : bool :=
  match c with
  | " "%char | "009"%char | "010"%char | "011"%char | "012"%char | "013"%char
  | "133"%char | "160"%char => true
  | _ => false
  end.

Fixpoint lstrip (s : string) : string :=
  match s with
  | String c s' => if is_space c then lstrip s' else s
  | EmptyString => EmptyString
  end.

Fixpoint rstrip (s : string) : string :=
  match s with
  | String c s' =>
      match rstrip s' with
      | EmptyString => if is_space c then EmptyString else String c EmptyString
      | r => String c r
      end
  | EmptyString => EmptyString
  end.

Definition strip (s : string) : string := rstrip (lstrip s).

Definition digit (c : ascii) : option Z :=
  let n := Z.of_nat (nat_of_ascii c) in
  if ((48 <=? n) && (n <=? 57))%Z then Some (n - 48)%Z else None.

(** The digits of a literal, [acc] being the value read so far and
    [after_digit] telling whether the character just before was a digit: an
    underscore may only stand between two digits, and the literal ends with a
    digit. *)
Fixpoint digits (s : string) (acc : Z) (after_digit : bool) : option Z :=
  match s with
  | EmptyString => if after_digit then Some acc else None
  | String c s' =>
      match digit c with
      | Some d => digits s' (10 * acc + d)%Z true
      | None =>
          if Ascii.eqb c "_" && after_digit then digits s' acc false else None
      end
  end.

Definition unsigned (s : string) : option Z := digits s 0%Z false.

Definition int_of_string (s : string) : option Z :=
  match strip s with
  | String "-"%char r => option_map Z.opp (unsigned r)
  | String "+"%char r => unsigned r
  | r => unsigned r
  end.

(** [int(v)] *)
Definition int (v : PyVal) : outcome Z :=
  match v with
  | VNone => Raise TypeError
  | VInt z => Return z
  | VStr s =>
      match int_of_string s with
      | Some z => Return z
      | None => Raise (IntLiteralError s)
      end
  end.

(** *** [str.split(sep)] for a one-character separator, and [sep.join] *)

Fixpoint split (sep : ascii) (s : string) : list string :=
  match s with
  | EmptyString => [EmptyString]
  | String c s' =>
      if Ascii.eqb c sep then EmptyString :: split sep s'
      else match split sep s' with
           | w :: ws => String c w :: ws
           | [] => [String c EmptyString]
           end
  end.

Definition join (sep : string) (items : list string) : string :=
  String.concat sep items.

(** [x in l] for a list of strings *)
Definition mem (x : string) (l : list string) : bool :=
  existsb (String.eqb x) l.

(** [items[i]] *)
Definition getitem (items : list string) (i : nat) : outcome string :=
  match nth_error items i with
  | Some x => Return x
  | None => Raise IndexError
  end.

(** [del items[i:j]] (slice bounds are clamped to the length) *)
Definition del_slice (items : list string) (i j : nat) : list string :=
  firstn i items ++ skipn (Nat.max i j) items.

End Py.

(** ** [os.path] (posixpath) *)

Module path.

(** [s.rfind(c) + 1]: the position just after the last [c], 0 if there is none,
    given as the pair (text up to and including that [c], text after it). *)
Fixpoint rsplit_after (c : ascii) (s : string) : string * string :=
  match s with
  | EmptyString => (EmptyString, EmptyString)
  | String a s' =>
      let (h, t) := rsplit_after c s' in
      match h with
      | EmptyString =>
          if Ascii.eqb a c then (String a EmptyString, t) else (EmptyString, String a t)
      | _ => (String a h, t)
      end
  end.

(** [path.basename(p)]: [p[p.rfind('/')+1:]] *)
Definition basename (p : string) : string := snd (rsplit_after "/"%char p).

Fixpoint all_dots (s : string) : bool :=
  match s with
  | EmptyString => true
  | String c s' => Ascii.eqb c "."%char && all_dots s'
  end.

(** [path.splitext(p)]: the extension starts at the last dot of the last
    component, unless only dots precede it in that component. *)
Definition splitext (p : string) : string * string :=
  let (dir, file) := rsplit_after "/"%char p in
  let (h, ext) := rsplit_after "."%char file in
  match h with
  | EmptyString => (p, EmptyString)
  | String _ _ =>
      let root := substring 0 (String.length h - 1) h in
      if all_dots root then (p, EmptyString)
      else (dir ++ root, "." ++ ext)
  end.

Definition startswith_slash (s : string) : bool :=
  match s with String "/"%char _ => true | _ => false end.

Fixpoint endswith_slash (s : string) : bool :=
  match s with
  | EmptyString => false
  | String c EmptyString => Ascii.eqb c "/"%char
  | String _ s' => endswith_slash s'
  end.

(** [path.join(a, b)] *)
Definition join (a b : string) : string :=
  if startswith_slash b then b
  else if (String.eqb a "" || endswith_slash a)%bool then a ++ b
  else a ++ "/" ++ b.

End path.

Import Py.

(** ** Module-level functions *)

(** [bt2BaseName(tempDir, refFile)] *)
Definition bt2BaseName (tempDir refFile : string) : string :=
  path.join tempDir (fst (path.splitext (path.basename refFile))).

Definition exts : list string :=
  ["1.bt2"; "2.bt2"; "3.bt2"; "4.bt2"; "rev.1.bt2"; "rev.2.bt2"].

(** [bt2IndexFiles(baseName)] *)
Definition bt2IndexFiles (baseName : string) : list string :=
  map (fun ext => Py.join "." [baseName; ext]) exts.

(** ** State and exceptions *)

(** A computation over a mutable object of type [S]: it ends with the object's
    contents at that moment and either a value or a raised exception. *)
Definition M (S A : Type) : Type := S -> S * outcome A.

Definition ret {S A} (a : A) : M S A := fun s => (s, Return a).
Definition raise {S A} (e : exn) : M S A := fun s => (s, Raise e).
Definition lift {S A} (r : outcome A) : M S A := fun s => (s, r).
Definition bind {S A B} (m : M S A) (k : A -> M S B) : M S B :=
  fun s =>
    match m s with
    | (s', Return a) => k a s'
    | (s', Raise e) => (s', Raise e)
    end.

(** [try: m except Exception as e: raise h(e)] *)
Definition try_except {S A} (m : M S A) (h : exn -> exn) : M S A :=
  fun s =>
    match m s with
    | (s', Return a) => (s', Return a)
    | (s', Raise e) => (s', Raise (h e))
    end.

Declare Scope py_scope.
Delimit Scope py_scope with py.
Notation "x <- m ;; k" := (bind m (fun x => k))
  (at level 61, m at next level, right associativity) : py_scope.
Notation "m ;; k" := (bind m (fun _ => k))
  (at level 61, right associativity) : py_scope.
Open Scope py_scope.

(** ** The options object *)

(** Modelled from the spec: the class of the [options] argument is not part of
    this module.  Its attributes are the five option fields the service reads
    and writes, each unset ([None]) or holding an integer or a string. *)
Record AlignmentOptions : Type := mkOptions {
  maxHits : PyVal;
  minAnchorSize : PyVal;
  nproc : PyVal;
  seed : PyVal;
  algorithmOptions : PyVal
}.

(** [options.<name>]: reading an attribute the object does not have raises
    [AttributeError]. *)
Definition getattr (name : string) : M AlignmentOptions PyVal :=
  fun o =>
    if name =? "maxHits" then (o, Return (maxHits o))
    else if name =? "minAnchorSize" then (o, Return (minAnchorSize o))
    else if name =? "nproc" then (o, Return (nproc o))
    else if name =? "seed" then (o, Return (seed o))
    else if name =? "algorithmOptions" then (o, Return (algorithmOptions o))
    else (o, Raise (AttributeError name)).

(** [options.nproc = v] *)
Definition set_nproc (v : PyVal) : M AlignmentOptions unit :=
  fun o => (mkOptions (maxHits o) (minAnchorSize o) v (seed o) (algorithmOptions o),
            Return tt).

(** [options.algorithmOptions = v] *)
Definition set_algorithmOptions (v : PyVal) : M AlignmentOptions unit :=
  fun o => (mkOptions (maxHits o) (minAnchorSize o) (nproc o) (seed o) v, Return tt).

(** Modelled from the spec: the class of the [fileNames] argument is not part
    of this module; it holds the three resolved paths. *)
Record PBAlignFiles : Type := mkFiles {
  targetFileName : string;
  queryFileName : string;
  alignerSamOut : string
}.

(** ** [BowtieService] *)

Module BowtieService.

Definition name : string := "BowtieService".
Definition progName : string := "bowtie2".
Definition scoreSign : Z := 1.

Definition ignoredBinaryOptions : list string :=
  ["-x"; "-S"; "-1"; "-2"; "-U"; "-r"; "-q"; "--qseq"; "--seed"].

Definition ignoredUnitaryOptions : list string := ["--version"; "--help"].

Definition conflict_k : string :=
  "bowtie2 -k specified within " ++
  "--algorithmOptions is equivalent to " ++
  "--maxHits. Conflicting values of " ++
  "--algorithmOptions '-k' and " ++
  "--maxHits have been found.".

Definition conflict_L : string :=
  "bowtie2 -L specified within " ++
  "--algorithmOptions is equivalent to " ++
  "--minAnchorSize. Conflicting values " ++
  "of --algorithmOptions '-L' and " ++
  "--minAnchorSize have been found.".

(** The end of an iteration that did not [continue]:
    [if errMsg != "": raise ValueError(errMsg)], then [del items[i:i+2]]. *)
Definition finish (errMsg : string) (items : list string) (i : nat)
  : M AlignmentOptions (list string * nat) :=
  if negb (errMsg =? "") then raise (ValueError errMsg)
  else ret (del_slice items i (i + 2), i).

(** [errMsg] of the [-k] and [-L] branches: [msg] when the option [field] is
    not [None] and [int] of it differs from [val]. *)
Definition check_conflict (field : string) (val : Z) (msg : string)
  : M AlignmentOptions string :=
  v <- getattr field ;;
  if negb (is_None v) then
    n <- lift (int v) ;;
    ret (if negb (n =? val)%Z then msg else "")
  else ret "".

(** One iteration of [while i < len(items)]: the new [items] and [i]. *)
Definition body (items : list string) (i : nat)
  : M AlignmentOptions (list string * nat) :=
  item <- lift (getitem items i) ;;
  if item =? "-k" then
    tok <- lift (getitem items (i + 1)) ;;
    val <- lift (int (VStr tok)) ;;
    errMsg <- check_conflict "maxHits" val conflict_k ;;
    finish errMsg items i
  else if item =? "-L" then
    tok <- lift (getitem items (i + 1)) ;;
    val <- lift (int (VStr tok)) ;;
    errMsg <- check_conflict "minAnchorSize" val conflict_L ;;
    finish errMsg items i
  else if item =? "-p" then
    tok <- lift (getitem items (i + 1)) ;;
    val <- lift (int (VStr tok)) ;;
    np <- getattr "nproc" ;;
    (if is_None np then set_nproc (VInt val)
     else
       x <- getattr "npoc" ;;
       n <- lift (int x) ;;
       if negb (n =? val)%Z then set_nproc (VInt val) else ret tt) ;;
    finish "" items i
  else if mem item ignoredBinaryOptions then finish "" items i
  else if mem item ignoredUnitaryOptions then ret (del_slice items i (i + 1), i)
  else ret (items, i + 1).

(** Keeps the equation [x = y] when matching on [x]. *)
Definition inspect {A : Type} (x : A) : {y : A | x = y} := exist _ x eq_refl.

(** [while i < len(items): body].  Every iteration either advances [i] or
    deletes at least one item at or after [i], so [len(items) - i] goes down. *)
Equations? while_loop (items : list string) (i : nat) (o : AlignmentOptions)
  : AlignmentOptions * outcome (list string) by wf (List.length items - i) lt :=
while_loop items i o with inspect (Nat.ltb i (List.length items)) := {
  | exist _ false _ => (o, Return items)
  | exist _ true Hlt with inspect (body items i o) := {
      | exist _ (o', Raise e) _ => (o', Raise e)
      | exist _ (o', Return (items', i')) Hb => while_loop items' i' o' } }.
Proof.
  apply Nat.ltb_lt in Hlt.
  assert (Hd : forall k, 0 < k ->
            List.length (del_slice items i (i + k)) < List.length items).
  { intros k Hk. unfold del_slice.
    rewrite length_app, length_firstn, length_skipn. lia. }
  assert (Hd1 := Hd 1 Nat.lt_0_1).
  assert (Hd2 := Hd 2 Nat.lt_0_2).
  unfold body, finish, check_conflict, bind, lift, ret, raise, set_nproc in Hb.
  cbn in Hb.
  repeat match type of Hb with
         | context [match ?x with _ => _ end] => destruct x
         end;
    inversion Hb; subst; lia.
Qed.

(** The text that the handler puts before [str(e)]. *)
Definition parsingErrMsg (ao : string) : string :=
  "An error occured during parsing algorithmOptions '" ++ ao ++ "'".

(** [_resolveAlgorithmOptions(self, options, fileNames)].  The method returns
    the [options] object it was given, so the model returns no value: the
    object's contents after the call are the state of the computation. *)
Definition _resolveAlgorithmOptions (fileNames : PBAlignFiles)
  : M AlignmentOptions unit :=
  ao <- getattr "algorithmOptions" ;;
  match ao with
  | VNone => ret tt
  | VInt _ => raise (AttributeError "split")
  | VStr s =>
      items <- try_except (while_loop (split " " s) 0) (ParsingError s) ;;
      set_algorithmOptions (VStr (Py.join " " items))
  end.

(** Modelled from the spec: the temporary file manager is a class of another
    module.  The service reads its [defaultRootDir] and calls
    [RegisterExistingTmpFile(path, own)] on it; the model keeps the calls made,
    in order, each with its ownership flag. *)
Record TempFileManager : Type := mkManager {
  defaultRootDir : string;
  registered : list (string * bool)
}.

Definition RegisterExistingTmpFile (thisPath : string) (own : bool)
  : M TempFileManager unit :=
  fun m => (mkManager (defaultRootDir m) (registered m ++ [(thisPath, own)]),
            Return tt).

(** [for x in xs: f(x)] *)
Fixpoint for_each {S A} (xs : list A) (f : A -> M S unit) : M S unit :=
  match xs with
  | [] => ret tt
  | x :: xs' => f x ;; for_each xs' f
  end.

Section External.

(** [pbcore.util.Process.backticks]: runs a shell command and returns its
    output lines, its exit code and its error text. *)
Variable backticks : string -> list string * Z * string.

(** [self._pls2fasta], inherited from [FastaBasedAlignService]. *)
Variable _pls2fasta : string -> string -> bool -> outcome string.

(** [_bt2BuildIndex(self, tempDir, referenceFile)] *)
Definition _bt2BuildIndex (tempDir referenceFile : string) : outcome (list string) :=
  let refBaseName := bt2BaseName tempDir referenceFile in
  let cmdStr := "bowtie2-build -q -f " ++ referenceFile ++ " " ++ refBaseName in
  let '(_output, errCode, errMsg) := backticks cmdStr in
  if negb (errCode =? 0)%Z then Raise (RuntimeError errMsg)
  else Return (bt2IndexFiles refBaseName).

(** [_preProcess(self, inputFileName, referenceFile, regionTable,
    noSplitSubreads, tempFileManager, isWithinRepository)]; the state is the
    [tempFileManager] object. *)
Definition _preProcess (inputFileName referenceFile regionTable : string)
    (noSplitSubreads isWithinRepository : bool) : M TempFileManager string :=
  fun tempFileManager =>
    (indexFiles <- lift (_bt2BuildIndex (defaultRootDir tempFileManager) referenceFile) ;;
     for_each indexFiles (fun indexFile => RegisterExistingTmpFile indexFile true) ;;
     lift (_pls2fasta inputFileName regionTable noSplitSubreads)) tempFileManager.

End External.

(** [_toCmd(self, options, fileNames, tempFileManager)] *)
Definition _toCmd (options : AlignmentOptions) (fileNames : PBAlignFiles)
    (tempFileManager : TempFileManager) : string :=
  let cmdStr := "bowtie2 " in
  let cmdStr :=
    if negb (is_None (maxHits options)) && ne_empty (maxHits options)
    then cmdStr ++ " -k " ++ str (maxHits options) else cmdStr in
  let cmdStr :=
    if negb (is_None (nproc options)) && ne_empty (nproc options)
    then cmdStr ++ " -p " ++ str (nproc options) else cmdStr in
  let cmdStr :=
    if negb (is_None (algorithmOptions options))
    then cmdStr ++ " " ++ str (algorithmOptions options) ++ " " else cmdStr in
  let cmdStr :=
    if negb (is_None (seed options)) && ne_empty (seed options)
    then cmdStr ++ " --seed " ++ str (seed options) ++ " " else cmdStr in
  let refBaseName :=
    bt2BaseName (defaultRootDir tempFileManager) (targetFileName fileNames) in
  cmdStr ++ "-x " ++ refBaseName ++ " -f " ++ queryFileName fileNames ++
    " -S " ++ alignerSamOut fileNames ++ " ".

(** [_postProcess(self)] only logs. *)
Definition _postProcess : unit := tt.

End BowtieService.

Import BowtieService.

(** * Specification-level notions *)

(** The optional pieces of the command line, as the specification lists them. *)
Definition maxHits_segment (v : PyVal) : string :=
  if negb (is_None v) && ne_empty v then " -k " ++ str v else "".

Definition nproc_segment (v : PyVal) : string :=
  if negb (is_None v) && ne_empty v then " -p " ++ str v else "".

Definition algorithmOptions_segment (v : PyVal) : string :=
  if negb (is_None v) then " " ++ str v ++ " " else "".

Definition seed_segment (v : PyVal) : string :=
  if negb (is_None v) && ne_empty v then " --seed " ++ str v ++ " " else "".

Definition required_segment (refBase queryFile outFile : string) : string :=
  "-x " ++ refBase ++ " -f " ++ queryFile ++ " -S " ++ outFile ++ " ".

(** A token the scan recognises: it is deleted, alone or with the token after
    it.  Every other token is stepped over. *)
Definition recognised (t : string) : bool :=
  (t =? "-k") || (t =? "-L") || (t =? "-p")
  || mem t ignoredBinaryOptions || mem t ignoredUnitaryOptions.

(** The states of the loop of [_resolveAlgorithmOptions] that a run started
    on [items0] with options [o0] goes through at the head of the loop. *)
Inductive Reaches (items0 : list string) (o0 : AlignmentOptions)
  : list string -> nat -> AlignmentOptions -> Prop :=
| reaches_start : Reaches items0 o0 items0 0 o0
| reaches_step items i o items' i' o' :
    Reaches items0 o0 items i o ->
    i < List.length items ->
    body items i o = (o', Return (items', i')) ->
    Reaches items0 o0 items' i' o'.

(** The tokens of a field: [field.split(' ')] when it holds a string. *)
Definition tokens (v : PyVal) : list string :=
  match v with
  | VStr s => split " " s
  | _ => []
  end.

(** What [_resolveAlgorithmOptions] makes of the outcome of its loop on the
    raw string [s]: the handler wraps an exception, a normal end stores the
    joined tokens. *)
Definition finish_run (s : string) (r : AlignmentOptions * outcome (list string))
  : AlignmentOptions * outcome unit :=
  match r with
  | (o, Return items) => set_algorithmOptions (VStr (Py.join " " items)) o
  | (o, Raise e) => (o, Raise (ParsingError s e))
  end.

(** The flags checked against an option field: the flag, the name of the
    option in the message, the field and the message of the conflict. *)
Definition cross_checked
  : list (string * string * (AlignmentOptions -> PyVal) * string) :=
  [("-k", "--maxHits", maxHits, conflict_k);
   ("-L", "--minAnchorSize", minAnchorSize, conflict_L)].

(** [str(e)] for the exceptions whose text the module itself composes. *)
Fixpoint message (e : exn) : option string :=
  match e with
  | ValueError msg | RuntimeError msg => Some msg
  | ParsingError ao cause =>
      option_map (fun m => parsingErrMsg ao ++ m) (message cause)
  | _ => None
  end.

(** The directory part of a path, if any, ends with a slash. *)
Definition dir_prefix (dir : string) : bool :=
  (dir =? "") || path.endswith_slash dir.

(** [c not in s] *)
Fixpoint lacks (c : ascii) (s : string) : bool :=
  match s with
  | EmptyString => true
  | String a s' => negb (Ascii.eqb a c) && lacks c s'
  end.

Fixpoint nospace (w : string) : bool :=
  match w with
  | EmptyString => true
  | String c w' => negb (Ascii.eqb c " ") && nospace w'
  end.

(** [l1] is [l2] with some elements left out, the order kept. *)
Inductive subseq : list string -> list string -> Prop :=
| subseq_nil : subseq [] []
| subseq_skip x l1 l2 : subseq l1 l2 -> subseq l1 (x :: l2)
| subseq_keep x l1 l2 : subseq l1 l2 -> subseq (x :: l1) (x :: l2).

(** The exceptions the loop of [_resolveAlgorithmOptions] can end with. *)
Definition parse_cause (e : exn) : Prop :=
  e = ValueError conflict_k \/ e = ValueError conflict_L \/
  e = IndexError \/ (exists lit, e = IntLiteralError lit) \/
  e = AttributeError "npoc".

(** [options.nproc = N] on the contents [o]. *)
Definition with_nproc (o : AlignmentOptions) (N : Z) : AlignmentOptions :=
  mkOptions (maxHits o) (minAnchorSize o) (VInt N) (seed o) (algorithmOptions o).

(** All characters of [s] are ASCII (code points below 128). *)
Fixpoint ascii_only (s : string) : bool :=
  match s with
  | EmptyString => true
  | String c s' => (nat_of_ascii c <? 128)%nat && ascii_only s'
  end.

(** The flags whose next token is read as an integer. *)
Definition valued_flags : list string := ["-k"; "-L"; "-p"].

(** * Lemmas *)

(** ** Lists and strings *)

Lemma append_empty_r (s : string) : s ++ "" = s.
Proof. induction s; cbn; congruence. Qed.

Lemma append_assoc (a b c : string) : (a ++ b) ++ c = a ++ b ++ c.
Proof. induction a; cbn; congruence. Qed.

Lemma mem_In (x : string) (l : list string) : mem x l = true <-> In x l.
Proof.
  unfold mem. rewrite existsb_exists. split.
  - intros [y [Hy E]]. apply String.eqb_eq in E. now subst.
  - intros H. exists x. split; [assumption | apply String.eqb_refl].
Qed.

Lemma getitem_here (pre : list string) t rest :
  getitem (pre ++ t :: rest) (List.length pre) = Return t.
Proof.
  unfold getitem. now rewrite nth_error_app2, Nat.sub_diag by lia.
Qed.

Lemma getitem_next (pre : list string) t rest :
  getitem (pre ++ t :: rest) (List.length pre + 1) =
  match rest with v :: _ => Return v | [] => Raise IndexError end.
Proof.
  unfold getitem. rewrite nth_error_app2 by lia.
  replace (List.length pre + 1 - List.length pre) with 1 by lia.
  now destruct rest.
Qed.

Lemma del_slice_here (pre : list string) t rest k :
  del_slice (pre ++ t :: rest) (List.length pre) (List.length pre + S k) =
  (pre ++ skipn k rest)%list.
Proof.
  unfold del_slice.
  rewrite firstn_app, firstn_all, Nat.sub_diag, app_nil_r.
  rewrite Nat.max_r, skipn_app by lia.
  rewrite skipn_all2 by lia.
  now replace (List.length pre + S k - List.length pre) with (S k) by lia.
Qed.

Lemma firstn_del_slice (items : list string) i j :
  i <= List.length items -> firstn i (del_slice items i j) = firstn i items.
Proof.
  intros Hi. unfold del_slice.
  rewrite firstn_app, length_firstn, Nat.min_l, Nat.sub_diag by assumption.
  rewrite firstn_firstn, Nat.min_id. apply app_nil_r.
Qed.

Lemma Forall_del_slice (P : string -> Prop) items i j :
  Forall P items -> Forall P (del_slice items i j).
Proof.
  intros H. unfold del_slice. apply Forall_app. split.
  - rewrite <- (firstn_skipn i items) in H. now apply Forall_app in H.
  - rewrite <- (firstn_skipn (Nat.max i j) items) in H. now apply Forall_app in H.
Qed.

Lemma split_nospace (s : string) :
  Forall (fun w => nospace w = true) (split " " s).
Proof.
  induction s as [|c s IH]; cbn [split].
  - now constructor.
  - destruct (Ascii.eqb c " ") eqn:Ec.
    + now constructor.
    + destruct (split " " s) as [|w ws]; inversion IH; subst;
        constructor; cbn; try rewrite Ec; auto.
Qed.

Lemma split_word (w : string) : nospace w = true -> split " " w = [w].
Proof.
  induction w as [|c w IH]; cbn; [reflexivity|].
  intros H. apply andb_prop in H. destruct H as [Hc Hw].
  apply negb_true_iff in Hc. rewrite Hc, (IH Hw). reflexivity.
Qed.

Lemma split_word_app (w s : string) :
  nospace w = true -> split " " (w ++ String " " s) = w :: split " " s.
Proof.
  induction w as [|c w IH]; cbn; [reflexivity|].
  intros H. apply andb_prop in H. destruct H as [Hc Hw].
  apply negb_true_iff in Hc. rewrite Hc, (IH Hw). reflexivity.
Qed.

(** Splitting what [join] built gives the tokens back. *)
Lemma split_join (items : list string) :
  items <> [] -> Forall (fun w => nospace w = true) items ->
  split " " (Py.join " " items) = items.
Proof.
  induction items as [|w [|x xs] IH]; intros Hne Hall; [congruence| |].
  - inversion Hall; subst. now apply split_word.
  - inversion Hall; subst.
    change (Py.join " " (w :: x :: xs)) with (w ++ String " " (Py.join " " (x :: xs))).
    rewrite split_word_app by assumption.
    f_equal. apply IH; [discriminate | assumption].
Qed.

Lemma while_loop_unfold (items : list string) (i : nat) (o : AlignmentOptions) :
  while_loop items i o =
  if Nat.ltb i (List.length items) then
    match body items i o with
    | (o', Return (items', i')) => while_loop items' i' o'
    | (o', Raise e) => (o', Raise e)
    end
  else (o, Return items).
Proof.
  funelim (while_loop items i o);
    try match goal with E : Nat.ltb _ _ = _ |- _ => rewrite E end;
    try match goal with E : body _ _ _ = _ |- _ => rewrite E end;
    reflexivity.
Qed.

(** The loop as a Hoare rule: an invariant [P] of the loop head carries over
    to whatever the loop ends with. *)
Lemma while_loop_rule
    (P : list string -> nat -> AlignmentOptions -> Prop)
    (Q : AlignmentOptions * outcome (list string) -> Prop) :
  (forall items i o, P items i o -> List.length items <= i -> Q (o, Return items)) ->
  (forall items i o o' e, P items i o -> i < List.length items ->
     body items i o = (o', Raise e) -> Q (o', Raise e)) ->
  (forall items i o o' items' i', P items i o -> i < List.length items ->
     body items i o = (o', Return (items', i')) -> P items' i' o') ->
  forall items i o, P items i o -> Q (while_loop items i o).
Proof.
  intros Hexit Hraise Hstep items i o.
  funelim (while_loop items i o); intros HP;
    match goal with
    | E : Nat.ltb _ _ = true |- _ => pose proof (proj1 (Nat.ltb_lt _ _) E) as Hi
    | E : Nat.ltb _ _ = false |- _ => pose proof (proj1 (Nat.ltb_ge _ _) E) as Hi
    end.
  - now apply (Hexit items i o).
  - match goal with IH : forall P Q, _ |- _ => apply (IH P Q Hexit Hraise Hstep) end.
    now apply (Hstep items i o).
  - now apply (Hraise items i o).
Qed.

Lemma reaches_loop items0 o0 items i o :
  Reaches items0 o0 items i o ->
  while_loop items0 0 o0 = while_loop items i o.
Proof.
  induction 1 as [|items i o items' i' o' _ IH Hi Hb]; [reflexivity|].
  rewrite IH, (while_loop_unfold items i o).
  apply Nat.ltb_lt in Hi. now rewrite Hi, Hb.
Qed.

(** ** One iteration of the loop *)

Arguments mem : simpl never.

Ltac break_body :=
  unfold body, finish, check_conflict, bind, lift, ret, raise, set_nproc,
    getitem;
  cbn;
  repeat match goal with
         | |- context [match ?x with _ => _ end] =>
             lazymatch x with
             | context [match _ with _ => _ end] => fail
             | _ => destruct x eqn:?
             end
         end.

(** An iteration writes no field other than [nproc]. *)
Lemma body_frame items i o o' r :
  body items i o = (o', r) ->
  maxHits o' = maxHits o /\ minAnchorSize o' = minAnchorSize o /\
  seed o' = seed o /\ algorithmOptions o' = algorithmOptions o.
Proof.
  intros H. change o' with (fst (o', r)). rewrite <- H. clear H.
  break_body; cbn; auto.
Qed.

(** What an iteration that does not raise has done: stepped over an
    unrecognised token, or deleted the token at [i], alone or with the next. *)
Lemma body_return items i o o' items' i' :
  body items i o = (o', Return (items', i')) ->
  exists item, nth_error items i = Some item /\
    ((recognised item = false /\ items' = items /\ i' = i + 1 /\ o' = o) \/
     (recognised item = true /\ i' = i /\
      (items' = del_slice items i (i + 1) \/ items' = del_slice items i (i + 2)))).
Proof.
  revert o' items' i'.
  assert (H : match body items i o with
              | (o', Return (items', i')) =>
                  exists item, nth_error items i = Some item /\
                  ((recognised item = false /\ items' = items /\ i' = i + 1 /\ o' = o) \/
                   (recognised item = true /\ i' = i /\
                    (items' = del_slice items i (i + 1) \/
                     items' = del_slice items i (i + 2))))
              | _ => True
              end).
  { break_body; auto;
      (eexists; split; [reflexivity|]); unfold recognised;
      repeat match goal with
             | E : ?b = _ |- context [?b] => rewrite E
             end;
      cbn; rewrite ?orb_true_r; auto. }
  intros o' items' i' Hb. now rewrite Hb in H.
Qed.

Ltac at_token :=
  unfold body, bind, lift; rewrite getitem_here; cbn [fst snd].

Lemma body_unrecognised pre t rest o :
  recognised t = false ->
  body (pre ++ t :: rest) (List.length pre) o =
  (o, Return ((pre ++ t :: rest)%list, List.length pre + 1)).
Proof.
  unfold recognised. intros H.
  repeat (apply orb_false_elim in H; destruct H as [H ?]).
  at_token.
  repeat match goal with E : _ = false |- _ => rewrite E; clear E end.
  reflexivity.
Qed.

Lemma body_ignored_unitary pre t rest o :
  mem t ignoredUnitaryOptions = true ->
  body (pre ++ t :: rest) (List.length pre) o =
  (o, Return ((pre ++ rest)%list, List.length pre)).
Proof.
  intros H. apply mem_In in H. at_token.
  rewrite (del_slice_here pre t rest 0).
  cbn in H. decompose [or] H; subst; try contradiction; reflexivity.
Qed.

Lemma body_ignored_binary pre t rest o :
  mem t ignoredBinaryOptions = true ->
  body (pre ++ t :: rest) (List.length pre) o =
  (o, Return ((pre ++ skipn 1 rest)%list, List.length pre)).
Proof.
  intros H. apply mem_In in H. at_token. unfold finish.
  rewrite (del_slice_here pre t rest 1).
  cbn in H. decompose [or] H; subst; try contradiction; reflexivity.
Qed.

(** The [-k] and [-L] branches when the field holds an integer. *)
Lemma body_cross_checked pre flag optname field msg tok rest o N M :
  In (flag, optname, field, msg) cross_checked ->
  int (VStr tok) = Return N ->
  int (field o) = Return M ->
  body (pre ++ flag :: tok :: rest) (List.length pre) o =
  if (M =? N)%Z then (o, Return ((pre ++ rest)%list, List.length pre))
  else (o, Raise (ValueError msg)).
Proof.
  intros Hin Htok Hfield. at_token. rewrite getitem_next.
  assert (Hset : is_None (field o) = false)
    by (destruct (field o); [discriminate | reflexivity | reflexivity]).
  cbn in Hin. decompose [or] Hin; try contradiction;
    match goal with E : _ = (_, _, _, _) |- _ => inversion E; subst; clear E end;
    cbn [String.eqb Ascii.eqb Bool.eqb]; rewrite Htok;
    unfold check_conflict, bind, lift, getattr;
    cbn [String.eqb Ascii.eqb Bool.eqb];
    rewrite Hset; cbn [negb]; rewrite Hfield;
    unfold ret, finish; rewrite (del_slice_here pre _ (tok :: rest) 1);
    destruct (M =? N)%Z; reflexivity.
Qed.

(** The [-k] and [-L] branches when the field is unset. *)
Lemma body_cross_checked_unset pre flag optname field msg tok rest o N :
  In (flag, optname, field, msg) cross_checked ->
  int (VStr tok) = Return N ->
  field o = VNone ->
  body (pre ++ flag :: tok :: rest) (List.length pre) o =
  (o, Return ((pre ++ rest)%list, List.length pre)).
Proof.
  intros Hin Htok Hfield. at_token. rewrite getitem_next.
  cbn in Hin. decompose [or] Hin; try contradiction;
    match goal with E : _ = (_, _, _, _) |- _ => inversion E; subst; clear E end;
    cbn [String.eqb Ascii.eqb Bool.eqb]; rewrite Htok;
    unfold check_conflict, bind, lift, getattr;
    cbn [String.eqb Ascii.eqb Bool.eqb];
    rewrite Hfield; unfold ret, finish;
    rewrite (del_slice_here pre _ (tok :: rest) 1); reflexivity.
Qed.

(** The [-p] branch. *)
Lemma body_p pre tok rest o N :
  int (VStr tok) = Return N ->
  body (pre ++ "-p" :: tok :: rest) (List.length pre) o =
  if is_None (nproc o)
  then (mkOptions (maxHits o) (minAnchorSize o) (VInt N) (seed o) (algorithmOptions o),
        Return ((pre ++ rest)%list, List.length pre))
  else (o, Raise (AttributeError "npoc")).
Proof.
  intros Htok. at_token. rewrite getitem_next.
  cbn [String.eqb Ascii.eqb Bool.eqb]. rewrite Htok.
  unfold getattr, finish. cbn [String.eqb Ascii.eqb Bool.eqb].
  rewrite (del_slice_here pre "-p" (tok :: rest) 1).
  destruct (is_None (nproc o)); reflexivity.
Qed.

(** ** Runs of the loop *)

Lemma reaches_frame items0 o0 items i o :
  Reaches items0 o0 items i o ->
  maxHits o = maxHits o0 /\ minAnchorSize o = minAnchorSize o0 /\
  seed o = seed o0 /\ algorithmOptions o = algorithmOptions o0.
Proof.
  induction 1 as [|items i o items' i' o' _ IH Hi Hb]; [auto|].
  apply body_frame in Hb. intuition congruence.
Qed.

Lemma reaches_next items0 o0 pre t rest o items' i' o' :
  Reaches items0 o0 (pre ++ t :: rest) (List.length pre) o ->
  body (pre ++ t :: rest) (List.length pre) o = (o', Return (items', i')) ->
  Reaches items0 o0 items' i' o'.
Proof.
  intros Hr Hb. eapply reaches_step; [exact Hr | | exact Hb].
  rewrite length_app. cbn. lia.
Qed.

(** The scan gets past a run of unrecognised tokens untouched. *)
Lemma reaches_unrecognised_prefix pre : forall rest o,
  Forall (fun w => recognised w = false) pre ->
  Reaches (pre ++ rest) o (pre ++ rest) (List.length pre) o.
Proof.
  induction pre as [|t pre IH] using rev_ind; intros rest o Hall.
  - apply reaches_start.
  - apply Forall_app in Hall. destruct Hall as [Hpre Ht].
    inversion Ht; subst. rewrite <- app_assoc. cbn [app].
    eapply (reaches_next _ _ pre t rest o).
    + apply IH. assumption.
    + rewrite body_unrecognised by assumption.
      rewrite length_app. reflexivity.
Qed.

Lemma while_loop_at pre t rest o :
  while_loop (pre ++ t :: rest) (List.length pre) o =
  match body (pre ++ t :: rest) (List.length pre) o with
  | (o', Return (items', i')) => while_loop items' i' o'
  | (o', Raise e) => (o', Raise e)
  end.
Proof.
  rewrite while_loop_unfold.
  replace (Nat.ltb _ _) with true; [reflexivity|].
  symmetry. apply Nat.ltb_lt. rewrite length_app. cbn. lia.
Qed.

Lemma resolve_eq fileNames o s :
  algorithmOptions o = VStr s ->
  _resolveAlgorithmOptions fileNames o =
  finish_run s (while_loop (split " " s) 0 o).
Proof.
  intros Hs. unfold _resolveAlgorithmOptions, bind, getattr, try_except, finish_run.
  cbn [String.eqb Ascii.eqb Bool.eqb]. rewrite Hs.
  destruct (while_loop (split " " s) 0 o) as [o' [items|e]]; reflexivity.
Qed.

Lemma resolve_reaches fileNames o s items i o1 :
  algorithmOptions o = VStr s ->
  Reaches (split " " s) o items i o1 ->
  _resolveAlgorithmOptions fileNames o = finish_run s (while_loop items i o1).
Proof.
  intros Hs Hr. rewrite (resolve_eq _ _ _ Hs). f_equal. now apply reaches_loop.
Qed.

(** A rest made of unrecognised tokens and unitary flags: the loop keeps the
    former, deletes the latter and ends normally. *)
Lemma while_loop_harmless rest : forall pre o,
  Forall (fun w => recognised w = false \/ mem w ignoredUnitaryOptions = true) rest ->
  while_loop (pre ++ rest) (List.length pre) o =
  (o, Return (pre ++ filter (fun w => negb (mem w ignoredUnitaryOptions)) rest)%list).
Proof.
  induction rest as [|t rest IH]; intros pre o Hall.
  - rewrite while_loop_unfold, app_nil_r, Nat.ltb_irrefl. cbn. now rewrite app_nil_r.
  - inversion Hall as [|? ? Ht Hrest]; subst. rewrite while_loop_at.
    destruct (mem t ignoredUnitaryOptions) eqn:Eu.
    + rewrite (body_ignored_unitary pre t rest o Eu). cbn [filter]. rewrite Eu.
      now apply IH.
    + destruct Ht as [Ht|Ht]; [|discriminate].
      rewrite (body_unrecognised pre t rest o Ht). cbn [filter]. rewrite Eu.
      cbn [negb].
      replace (pre ++ t :: rest)%list with ((pre ++ [t]) ++ rest)%list
        by (now rewrite <- app_assoc).
      replace (List.length pre + 1) with (List.length (pre ++ [t])%list)
        by (rewrite length_app; reflexivity).
      rewrite (IH (pre ++ [t])%list o Hrest). now rewrite <- app_assoc.
Qed.

(** The loop writes no field other than [nproc]. *)
Lemma while_loop_frame items i o :
  let o' := fst (while_loop items i o) in
  maxHits o' = maxHits o /\ minAnchorSize o' = minAnchorSize o /\
  seed o' = seed o /\ algorithmOptions o' = algorithmOptions o.
Proof.
  cbv zeta.
  apply (while_loop_rule
           (fun _ _ o1 =>
              maxHits o1 = maxHits o /\ minAnchorSize o1 = minAnchorSize o /\
              seed o1 = seed o /\ algorithmOptions o1 = algorithmOptions o)
           (fun r =>
              maxHits (fst r) = maxHits o /\ minAnchorSize (fst r) = minAnchorSize o /\
              seed (fst r) = seed o /\ algorithmOptions (fst r) = algorithmOptions o)).
  - auto.
  - intros ? ? ? ? ? HP _ Hb. apply body_frame in Hb. cbn. intuition congruence.
  - intros ? ? ? ? ? ? HP _ Hb. apply body_frame in Hb. intuition congruence.
  - auto.
Qed.

(** When the loop ends normally, no recognised token is left. *)
Lemma while_loop_leaves_unrecognised items0 o0 o' items' :
  Forall (fun w => nospace w = true) items0 ->
  while_loop items0 0 o0 = (o', Return items') ->
  Forall (fun w => recognised w = false) items' /\
  Forall (fun w => nospace w = true) items'.
Proof.
  intros Hsp Hrun.
  pose proof (while_loop_rule
    (fun items i _ =>
       Forall (fun w => recognised w = false) (firstn i items) /\
       Forall (fun w => nospace w = true) items)
    (fun r =>
       match snd r with
       | Return items =>
           Forall (fun w => recognised w = false) items /\
           Forall (fun w => nospace w = true) items
       | Raise _ => True
       end)) as Rule.
  cbn [snd] in Rule.
  specialize (Rule ltac:(intros items i o [H1 H2] Hi; now rewrite firstn_all2 in H1)).
  specialize (Rule ltac:(intros; cbn; exact I)).
  assert (Hstep : forall items i o o1 items1 i1,
             Forall (fun w => recognised w = false) (firstn i items) /\
             Forall (fun w => nospace w = true) items ->
             i < List.length items ->
             body items i o = (o1, Return (items1, i1)) ->
             Forall (fun w => recognised w = false) (firstn i1 items1) /\
             Forall (fun w => nospace w = true) items1).
  { intros items i o o1 items1 i1 [H1 H2] Hi Hb.
    apply body_return in Hb.
    destruct Hb as [item [Hnth [[Hrec [-> [-> _]]] | [_ [-> Hdel]]]]].
    - split; [|assumption].
      rewrite <- (firstn_skipn i items) in Hnth.
      rewrite nth_error_app2, length_firstn, Nat.min_l, Nat.sub_diag in Hnth
        by (rewrite ?length_firstn; lia).
      destruct (skipn i items) as [|x rest] eqn:Es; [discriminate|].
      cbn in Hnth. inversion Hnth; subst x.
      assert (E : firstn (i + 1) items = (firstn i items ++ [item])%list).
      { rewrite <- (firstn_skipn i items) at 1. rewrite Es.
        rewrite firstn_app, length_firstn, Nat.min_l by lia.
        rewrite firstn_firstn, Nat.min_r by lia.
        replace (i + 1 - i) with 1 by lia. reflexivity. }
      rewrite E. apply Forall_app. split; [assumption | now constructor].
    - destruct Hdel as [-> | ->];
        (split; [rewrite firstn_del_slice by lia; assumption
                | now apply Forall_del_slice]). }
  specialize (Rule Hstep items0 0 o0 (conj (Forall_nil _) Hsp)).
  now rewrite Hrun in Rule.
Qed.

(** * Index path resolver *)

Lemma lacks_app c a b : lacks c (a ++ b) = lacks c a && lacks c b.
Proof.
  induction a as [|x a IH]; cbn; [reflexivity|].
  now rewrite IH, andb_assoc.
Qed.

Lemma rsplit_after_lacks c s :
  lacks c s = true -> path.rsplit_after c s = ("", s).
Proof.
  induction s as [|a s IH]; cbn; [reflexivity|].
  intros H. apply andb_prop in H. destruct H as [Ha Hs].
  apply negb_true_iff in Ha. now rewrite (IH Hs), Ha.
Qed.

Lemma rsplit_after_last c a b :
  lacks c b = true ->
  path.rsplit_after c (a ++ String c b) = (a ++ String c "", b).
Proof.
  intros Hb. induction a as [|x a IH]; cbn.
  - now rewrite (rsplit_after_lacks c b Hb), Ascii.eqb_refl.
  - rewrite IH. now destruct a.
Qed.

Lemma substring_prefix a b : substring 0 (String.length a) (a ++ b) = a.
Proof.
  induction a as [|x a IH]; cbn; [now destruct b | now rewrite IH].
Qed.

Lemma substring_init a c :
  substring 0 (String.length (a ++ String c "") - 1) (a ++ String c "") = a.
Proof.
  assert (E : String.length (a ++ String c "") = S (String.length a))
    by (induction a; cbn; congruence).
  rewrite E, Nat.sub_1_r. apply substring_prefix.
Qed.

Lemma endswith_slash_app d : path.endswith_slash (d ++ "/") = true.
Proof.
  induction d as [|x d IH]; [reflexivity|].
  cbn [append path.endswith_slash]. rewrite IH. now destruct d.
Qed.

Lemma dir_prefix_inv dir :
  dir_prefix dir = true -> dir = "" \/ exists d, dir = d ++ "/".
Proof.
  unfold dir_prefix. intros H. apply orb_prop in H. destruct H as [H|H].
  - left. now apply String.eqb_eq.
  - right. induction dir as [|x dir IH]; [discriminate|].
    destruct dir as [|y dir'].
    + cbn in H. apply Ascii.eqb_eq in H. subst. now exists "".
    + destruct (IH H) as [d ->]. now exists (String x d).
Qed.

Lemma basename_of_file dir file :
  dir_prefix dir = true -> lacks "/" file = true ->
  path.basename (dir ++ file) = file.
Proof.
  intros Hd Hf. unfold path.basename.
  destruct (dir_prefix_inv dir Hd) as [-> | [d ->]].
  - cbn [append]. now rewrite rsplit_after_lacks.
  - rewrite append_assoc. cbn [append]. now rewrite rsplit_after_last.
Qed.

Lemma splitext_of_file stem ext :
  lacks "/" stem = true -> lacks "/" ext = true -> lacks "." ext = true ->
  path.all_dots stem = false ->
  path.splitext (stem ++ String "." ext) = (stem, String "." ext).
Proof.
  intros Hs He Hd Hstem. unfold path.splitext.
  rewrite rsplit_after_lacks
    by (rewrite lacks_app; cbn; now rewrite Hs, He).
  rewrite rsplit_after_last by assumption.
  destruct (stem ++ String "." "") as [|x h] eqn:E; [now destruct stem|].
  rewrite <- E, substring_init, Hstem. reflexivity.
Qed.

(** The base name is the working directory joined with the stem of the
    reference file: the directory of the reference and its extension go. *)
Lemma bt2BaseName_stem tempDir dir stem ext :
  dir_prefix dir = true ->
  lacks "/" stem = true -> lacks "/" ext = true -> lacks "." ext = true ->
  path.all_dots stem = false ->
  bt2BaseName tempDir (dir ++ stem ++ String "." ext) = path.join tempDir stem.
Proof.
  intros Hd Hs He Hx Hstem. unfold bt2BaseName.
  rewrite basename_of_file
    by (try assumption; rewrite lacks_app; cbn; now rewrite Hs, He).
  now rewrite splitext_of_file.
Qed.

(** C7. Index path resolution is a function of its arguments alone: the base
    name is the working directory joined with the stem of the reference file
    (its directory and its extension are dropped), so "/tmp" and
    "/data/ref.fasta" give "/tmp/ref"; and the index files of any base name are
    the six paths made of the base name, a dot and, in this order, 1.bt2,
    2.bt2, 3.bt2, 4.bt2, rev.1.bt2, rev.2.bt2. *)
Theorem index_path_resolution :
  bt2BaseName "/tmp" "/data/ref.fasta" = "/tmp/ref" /\
  (forall tempDir dir stem ext,
     dir_prefix dir = true ->
     lacks "/" stem = true -> lacks "/" ext = true -> lacks "." ext = true ->
     path.all_dots stem = false ->
     bt2BaseName tempDir (dir ++ stem ++ String "." ext) = path.join tempDir stem) /\
  (forall baseName,
     bt2IndexFiles baseName =
     [baseName ++ ".1.bt2"; baseName ++ ".2.bt2"; baseName ++ ".3.bt2";
      baseName ++ ".4.bt2"; baseName ++ ".rev.1.bt2"; baseName ++ ".rev.2.bt2"]) /\
  (forall baseName, List.length (bt2IndexFiles baseName) = 6) /\
  bt2IndexFiles "/tmp/ref" =
  ["/tmp/ref.1.bt2"; "/tmp/ref.2.bt2"; "/tmp/ref.3.bt2"; "/tmp/ref.4.bt2";
   "/tmp/ref.rev.1.bt2"; "/tmp/ref.rev.2.bt2"].
Proof.
  split; [reflexivity|]. split; [exact bt2BaseName_stem|].
  repeat split; reflexivity.
Qed.

(** The stem property of C7 at "/tmp" and "/data/ref.fasta". *)
Lemma index_path_resolution_witness :
  bt2BaseName "/tmp" ("/data/" ++ "ref" ++ ".fasta") = path.join "/tmp" "ref" /\
  path.join "/tmp" "ref" = "/tmp/ref".
Proof.
  split; [|reflexivity].
  exact (proj1 (proj2 index_path_resolution) "/tmp" "/data/" "ref" "fasta"
           eq_refl eq_refl eq_refl eq_refl eq_refl).
Defined.

(** * Command builder *)

Lemma toCmd_segments options fileNames tempFileManager :
  _toCmd options fileNames tempFileManager =
  "bowtie2 " ++
  maxHits_segment (maxHits options) ++
  nproc_segment (nproc options) ++
  algorithmOptions_segment (algorithmOptions options) ++
  seed_segment (seed options) ++
  required_segment
    (bt2BaseName (defaultRootDir tempFileManager) (targetFileName fileNames))
    (queryFileName fileNames) (alignerSamOut fileNames).
Proof.
  unfold _toCmd, maxHits_segment, nproc_segment, algorithmOptions_segment,
    seed_segment, required_segment.
  destruct (negb (is_None (maxHits options)) && ne_empty (maxHits options));
    destruct (negb (is_None (nproc options)) && ne_empty (nproc options));
    destruct (negb (is_None (algorithmOptions options)));
    destruct (negb (is_None (seed options)) && ne_empty (seed options));
    repeat (progress (rewrite ?append_assoc, ?append_empty_r; cbn [append]));
    reflexivity.
Qed.

(** C6. For options {maxHits: 5, nproc: 4, algorithmOptions: "", seed: 42},
    files {target: "/r/ref.fa", query: "/q/q.fa", out: "/o/out.sam"} and working
    directory "/tmp", the command is the program name followed, in this order,
    by "-k 5", "-p 4", the empty algorithmOptions piece, "--seed 42" and
    "-x /tmp/ref -f /q/q.fa -S /o/out.sam".  For all inputs the command is the
    program name followed by the pieces in that fixed order, where the maxHits,
    nproc and seed pieces are present only when the field is set and not the
    empty string, and the algorithmOptions piece whenever the field is set. *)
Theorem toCmd_fixed_order :
  (forall minAnchor regs,
     _toCmd (mkOptions (VInt 5) minAnchor (VInt 4) (VInt 42) (VStr ""))
            (mkFiles "/r/ref.fa" "/q/q.fa" "/o/out.sam") (mkManager "/tmp" regs) =
     "bowtie2 " ++ " -k 5" ++ " -p 4" ++ " " ++ "" ++ " " ++ " --seed 42 " ++
     "-x /tmp/ref -f /q/q.fa -S /o/out.sam ") /\
  (forall options fileNames tempFileManager,
     _toCmd options fileNames tempFileManager =
     "bowtie2 " ++
     maxHits_segment (maxHits options) ++
     nproc_segment (nproc options) ++
     algorithmOptions_segment (algorithmOptions options) ++
     seed_segment (seed options) ++
     required_segment
       (bt2BaseName (defaultRootDir tempFileManager) (targetFileName fileNames))
       (queryFileName fileNames) (alignerSamOut fileNames)) /\
  (forall v, maxHits_segment v =
     match v with VNone | VStr "" => "" | _ => " -k " ++ str v end) /\
  (forall v, nproc_segment v =
     match v with VNone | VStr "" => "" | _ => " -p " ++ str v end) /\
  (forall v, algorithmOptions_segment v =
     match v with VNone => "" | _ => " " ++ str v ++ " " end) /\
  (forall v, seed_segment v =
     match v with VNone | VStr "" => "" | _ => " --seed " ++ str v ++ " " end).
Proof.
  split; [reflexivity|]. split.
  - apply toCmd_segments.
  - repeat split; intros [| z | [|c s]]; reflexivity.
Qed.

(** * Index builder *)

(** C8. When the index-build subprocess exits with a code other than 0,
    [_bt2BuildIndex] raises an error that carries the subprocess's error text
    and [_preProcess] registers nothing with the temporary file manager; when
    it exits with 0, [_bt2BuildIndex] returns the six index files of the
    resolved base name, in order, and [_preProcess] registers each of them, in
    order, as owned by the manager, before it converts the input. *)
Theorem build_index_outcome backticks _pls2fasta
    (inputFileName referenceFile regionTable : string)
    (noSplitSubreads isWithinRepository : bool) (m : TempFileManager)
    (output : list string) (errCode : Z) (errMsg : string) :
  let base := bt2BaseName (defaultRootDir m) referenceFile in
  backticks ("bowtie2-build -q -f " ++ referenceFile ++ " " ++ base) =
    (output, errCode, errMsg) ->
  _bt2BuildIndex backticks (defaultRootDir m) referenceFile =
    (if (errCode =? 0)%Z then Return (bt2IndexFiles base)
     else Raise (RuntimeError errMsg)) /\
  _preProcess backticks _pls2fasta inputFileName referenceFile regionTable
      noSplitSubreads isWithinRepository m =
    (if (errCode =? 0)%Z
     then (mkManager (defaultRootDir m)
             (registered m ++ map (fun f => (f, true)) (bt2IndexFiles base)),
           _pls2fasta inputFileName regionTable noSplitSubreads)
     else (m, Raise (RuntimeError errMsg))) /\
  List.length (bt2IndexFiles base) = 6.
Proof.
  intros base Hrun.
  assert (Hb : _bt2BuildIndex backticks (defaultRootDir m) referenceFile =
               if (errCode =? 0)%Z then Return (bt2IndexFiles base)
               else Raise (RuntimeError errMsg)).
  { unfold _bt2BuildIndex. fold base. rewrite Hrun.
    destruct (errCode =? 0)%Z; reflexivity. }
  split; [exact Hb|]. split; [|reflexivity].
  unfold _preProcess, bind, lift. rewrite Hb.
  destruct (errCode =? 0)%Z; [|reflexivity].
  destruct m as [root regs]. cbn.
  rewrite <- !app_assoc. reflexivity.
Qed.

(** The failure scenario of C8: exit code 1 with the error text "bad format". *)
Lemma build_index_outcome_witness :
  _bt2BuildIndex (fun _ => ([], 1%Z, "bad format")) "/tmp" "/data/ref.fasta" =
    Raise (RuntimeError "bad format") /\
  _preProcess (fun _ => ([], 1%Z, "bad format")) (fun f _ _ => Return f)
      "in.bas.h5" "/data/ref.fasta" "rgn.h5" false false (mkManager "/tmp" []) =
    (mkManager "/tmp" [], Raise (RuntimeError "bad format")) /\
  List.length (bt2IndexFiles "/tmp/ref") = 6.
Proof.
  exact (build_index_outcome (fun _ => ([], 1%Z, "bad format")) (fun f _ _ => Return f)
           "in.bas.h5" "/data/ref.fasta" "rgn.h5" false false (mkManager "/tmp" [])
           [] 1%Z "bad format" eq_refl).
Defined.

(** * Option reconciler *)

Lemma resolve_cases fileNames o :
  (algorithmOptions o = VNone /\
   _resolveAlgorithmOptions fileNames o = (o, Return tt)) \/
  (exists z, algorithmOptions o = VInt z /\
   _resolveAlgorithmOptions fileNames o = (o, Raise (AttributeError "split"))) \/
  (exists s, algorithmOptions o = VStr s /\
   _resolveAlgorithmOptions fileNames o =
   finish_run s (while_loop (split " " s) 0 o)).
Proof.
  destruct (algorithmOptions o) as [| z | s] eqn:E.
  - left. split; [reflexivity|].
    unfold _resolveAlgorithmOptions, bind, getattr.
    cbn [String.eqb Ascii.eqb Bool.eqb]. now rewrite E.
  - right. left. exists z. split; [reflexivity|].
    unfold _resolveAlgorithmOptions, bind, getattr.
    cbn [String.eqb Ascii.eqb Bool.eqb]. now rewrite E.
  - right. right. exists s. split; [reflexivity | now apply resolve_eq].
Qed.

(** The reconciler writes neither [maxHits] nor [minAnchorSize] nor [seed]. *)
Lemma resolve_frame fileNames o :
  let o' := fst (_resolveAlgorithmOptions fileNames o) in
  maxHits o' = maxHits o /\ minAnchorSize o' = minAnchorSize o /\
  seed o' = seed o.
Proof.
  cbv zeta.
  destruct (resolve_cases fileNames o) as [[_ ->] | [[z [_ ->]] | [s [_ ->]]]];
    cbn [fst]; auto.
  pose proof (while_loop_frame (split " " s) 0 o) as H. cbv zeta in H.
  destruct (while_loop (split " " s) 0 o) as [o1 [items|e]];
    cbn in *; intuition.
Qed.

(** After a call that returns, no recognised token is left in
    [algorithmOptions]. *)
Lemma resolve_leaves_unrecognised fileNames o o' t :
  _resolveAlgorithmOptions fileNames o = (o', Return tt) ->
  In t (tokens (algorithmOptions o')) -> recognised t = false.
Proof.
  intros Hrun Hin.
  destruct (resolve_cases fileNames o) as [[E R] | [[z [_ R]] | [s [_ R]]]];
    rewrite R in Hrun.
  - inversion Hrun; subst. rewrite E in Hin. contradiction.
  - discriminate.
  - destruct (while_loop (split " " s) 0 o) as [o1 [items|e]] eqn:Hloop;
      [|discriminate].
    apply while_loop_leaves_unrecognised in Hloop; [|apply split_nospace].
    destruct Hloop as [Hrec Hsp].
    cbn in Hrun. inversion Hrun; subst; clear Hrun. cbn [algorithmOptions tokens] in Hin.
    destruct items as [|w ws].
    + cbn in Hin. destruct Hin as [<-|[]]. reflexivity.
    + rewrite split_join in Hin by (discriminate || assumption).
      rewrite Forall_forall in Hrec. now apply Hrec.
Qed.

(** C9. If [_resolveAlgorithmOptions] raises, whatever the error,
    [algorithmOptions] still holds the string it held before the call; the
    joined tokens are stored only when the whole scan has ended normally. *)
Theorem algorithmOptions_kept_on_error fileNames o o' r :
  _resolveAlgorithmOptions fileNames o = (o', r) ->
  match r with
  | Raise _ => algorithmOptions o' = algorithmOptions o
  | Return _ =>
      (algorithmOptions o = VNone /\ o' = o) \/
      (exists s o1 items,
         algorithmOptions o = VStr s /\
         while_loop (split " " s) 0 o = (o1, Return items) /\
         algorithmOptions o' = VStr (Py.join " " items))
  end.
Proof.
  intros Hrun.
  destruct (resolve_cases fileNames o) as [[E R] | [[z [_ R]] | [s [E R]]]];
    rewrite R in Hrun.
  - inversion Hrun; subst. now left.
  - inversion Hrun; subst. reflexivity.
  - pose proof (while_loop_frame (split " " s) 0 o) as H. cbv zeta in H.
    destruct (while_loop (split " " s) 0 o) as [o1 [items|e]] eqn:Hloop;
      cbn in Hrun, H; inversion Hrun; subst; clear Hrun.
    + right. exists s, o1, items. repeat split; auto.
    + intuition.
Qed.

(** An instance of C9: a conflict on [-k] after a [-p] that was applied. *)
Lemma algorithmOptions_kept_on_error_witness :
  algorithmOptions
    (fst (_resolveAlgorithmOptions (mkFiles "/r/ref.fa" "/q/q.fa" "/o/out.sam")
            (mkOptions (VInt 5) VNone VNone VNone (VStr "-p 8 -k 6")))) =
  VStr "-p 8 -k 6".
Proof.
  exact (algorithmOptions_kept_on_error
           (mkFiles "/r/ref.fa" "/q/q.fa" "/o/out.sam")
           (mkOptions (VInt 5) VNone VNone VNone (VStr "-p 8 -k 6"))
           (mkOptions (VInt 5) VNone (VInt 8) VNone (VStr "-p 8 -k 6"))
           (Raise (ParsingError "-p 8 -k 6" (ValueError conflict_k)))
           eq_refl).
Defined.

(** C10. [--seed] is one of the ignored binary flags: the scan deletes it with
    the token after it and never writes the [seed] field.  After a call that
    returns, [seed] is what it was, no [--seed] token is left in
    [algorithmOptions], and the seed piece of the command that [_toCmd] builds
    is made from the [seed] field the caller had set; when that field is unset
    the command has no seed piece. *)
Theorem raw_seed_not_emitted fileNames tempFileManager o o' :
  _resolveAlgorithmOptions fileNames o = (o', Return tt) ->
  mem "--seed" ignoredBinaryOptions = true /\
  (forall pre v rest o1,
     body (pre ++ "--seed" :: v :: rest) (List.length pre) o1 =
     (o1, Return ((pre ++ rest)%list, List.length pre))) /\
  seed o' = seed o /\
  ~ In "--seed" (tokens (algorithmOptions o')) /\
  _toCmd o' fileNames tempFileManager =
    "bowtie2 " ++
    maxHits_segment (maxHits o') ++
    nproc_segment (nproc o') ++
    algorithmOptions_segment (algorithmOptions o') ++
    seed_segment (seed o) ++
    required_segment
      (bt2BaseName (defaultRootDir tempFileManager) (targetFileName fileNames))
      (queryFileName fileNames) (alignerSamOut fileNames) /\
  (seed o = VNone -> seed_segment (seed o) = "").
Proof.
  intros Hrun.
  assert (Hseed : seed o' = seed o).
  { pose proof (resolve_frame fileNames o) as H. cbv zeta in H.
    rewrite Hrun in H. cbn in H. intuition. }
  split; [reflexivity|]. split.
  { intros pre v rest o1.
    now rewrite (body_ignored_binary pre "--seed" (v :: rest) o1). }
  split; [exact Hseed|]. split.
  { intros Hin. apply (resolve_leaves_unrecognised _ _ _ _ Hrun) in Hin.
    discriminate. }
  split.
  { rewrite <- Hseed. apply toCmd_segments. }
  intros ->. reflexivity.
Qed.

(** An instance of C10: a seed given only in the raw options. *)
Lemma raw_seed_not_emitted_witness :
  let fileNames := mkFiles "/r/ref.fa" "/q/q.fa" "/o/out.sam" in
  let o := mkOptions VNone VNone VNone VNone (VStr "--seed 7 --very-fast") in
  let o' := mkOptions VNone VNone VNone VNone (VStr "--very-fast") in
  _resolveAlgorithmOptions fileNames o = (o', Return tt) /\
  seed o' = VNone /\
  ~ In "--seed" (tokens (algorithmOptions o')) /\
  _toCmd o' fileNames (mkManager "/tmp" []) =
    "bowtie2  --very-fast -x /tmp/ref -f /q/q.fa -S /o/out.sam ".
Proof.
  intros fileNames o o'.
  destruct (raw_seed_not_emitted fileNames (mkManager "/tmp" []) o o' eq_refl)
    as (_ & _ & H1 & H2 & H3 & _).
  repeat split; assumption.
Defined.

(** When [nproc] is unset, [-p N] stores [N] and both tokens are deleted. *)
Lemma p_flag_sets_unset_nproc pre tok rest o N :
  int (VStr tok) = Return N ->
  nproc o = VNone ->
  body (pre ++ "-p" :: tok :: rest) (List.length pre) o =
  (mkOptions (maxHits o) (minAnchorSize o) (VInt N) (seed o) (algorithmOptions o),
   Return ((pre ++ rest)%list, List.length pre)).
Proof.
  intros Htok Hn. rewrite (body_p pre tok rest o N Htok), Hn. reflexivity.
Qed.

(** C1 (the code departs from it). When the scan is at a [-p] token followed
    by an integer token and [nproc] is already set, to the same or to another
    value, the branch reads the attribute [npoc], which the options object
    does not have: the call raises, [nproc] is not overwritten and the tokens
    stay in [algorithmOptions]. *)
Theorem p_flag_raises_when_nproc_set fileNames o s pre tok rest o1 N :
  algorithmOptions o = VStr s ->
  Reaches (split " " s) o (pre ++ "-p" :: tok :: rest) (List.length pre) o1 ->
  int (VStr tok) = Return N ->
  nproc o1 <> VNone ->
  _resolveAlgorithmOptions fileNames o =
  (o1, Raise (ParsingError s (AttributeError "npoc"))) /\
  algorithmOptions o1 = VStr s.
Proof.
  intros Hs Hr Htok Hn. split.
  - rewrite (resolve_reaches _ _ _ _ _ _ Hs Hr), while_loop_at,
      (body_p pre tok rest o1 N Htok).
    destruct (nproc o1); [congruence | reflexivity | reflexivity].
  - apply reaches_frame in Hr. destruct Hr as (_ & _ & _ & ->). exact Hs.
Qed.

(** C1 at options {nproc: 4, algorithmOptions: "-p 8"}. *)
Lemma p_flag_raises_when_nproc_set_witness :
  let o := mkOptions VNone VNone (VInt 4) VNone (VStr "-p 8") in
  _resolveAlgorithmOptions (mkFiles "/r/ref.fa" "/q/q.fa" "/o/out.sam") o =
  (o, Raise (ParsingError "-p 8" (AttributeError "npoc"))) /\
  algorithmOptions o = VStr "-p 8".
Proof.
  intros o.
  refine (p_flag_raises_when_nproc_set
            (mkFiles "/r/ref.fa" "/q/q.fa" "/o/out.sam") o "-p 8" [] "8" [] o 8%Z
            eq_refl (reaches_start _ _) eq_refl _).
  discriminate.
Defined.

(** C2 (the code departs from it). The reconciler never writes [maxHits] (nor
    [minAnchorSize]): with [maxHits] unset, [-k 5] is deleted from
    [algorithmOptions] and [maxHits] stays unset, so the value is in neither
    place and the command built afterwards has no [-k]. *)
Theorem maxHits_never_assigned :
  (forall fileNames o,
     maxHits (fst (_resolveAlgorithmOptions fileNames o)) = maxHits o /\
     minAnchorSize (fst (_resolveAlgorithmOptions fileNames o)) = minAnchorSize o) /\
  (forall fileNames,
     _resolveAlgorithmOptions fileNames (mkOptions VNone VNone VNone VNone (VStr "-k 5")) =
     (mkOptions VNone VNone VNone VNone (VStr ""), Return tt)) /\
  _toCmd (mkOptions VNone VNone VNone VNone (VStr ""))
         (mkFiles "/r/ref.fa" "/q/q.fa" "/o/out.sam") (mkManager "/tmp" []) =
  "bowtie2   -x /tmp/ref -f /q/q.fa -S /o/out.sam ".
Proof.
  split; [|split; reflexivity].
  intros fileNames o. pose proof (resolve_frame fileNames o) as H.
  cbv zeta in H. intuition.
Qed.

(** C3 fails as stated: with options {algorithmOptions:
    "--very-fast -x /idx/ref -N 1"} the call returns and neither [-x] nor its
    value is among the tokens of [algorithmOptions] afterwards. *)
Lemma ignored_binary_flag_not_kept :
  let o' := fst (_resolveAlgorithmOptions (mkFiles "/r/ref.fa" "/q/q.fa" "/o/out.sam")
                   (mkOptions VNone VNone VNone VNone
                      (VStr "--very-fast -x /idx/ref -N 1"))) in
  algorithmOptions o' = VStr "--very-fast -N 1" /\
  ~ In "-x" (tokens (algorithmOptions o')) /\
  ~ In "/idx/ref" (tokens (algorithmOptions o')).
Proof.
  cbv zeta. split; [reflexivity|].
  split; intros H; vm_compute in H; decompose [or] H;
    try discriminate; contradiction.
Qed.

(** C3, amended. When the scan is at a token of the ignored binary flags, the
    iteration deletes that token together with the token after it (if there is
    one), raises nothing, writes no option and leaves the index where it is;
    the call goes on from there, and when it returns, that flag is not among
    the tokens of [algorithmOptions]. *)
Theorem ignored_binary_flag_removed fileNames o s pre t rest o1 :
  algorithmOptions o = VStr s ->
  Reaches (split " " s) o (pre ++ t :: rest) (List.length pre) o1 ->
  mem t ignoredBinaryOptions = true ->
  body (pre ++ t :: rest) (List.length pre) o1 =
    (o1, Return ((pre ++ skipn 1 rest)%list, List.length pre)) /\
  Reaches (split " " s) o (pre ++ skipn 1 rest) (List.length pre) o1 /\
  _resolveAlgorithmOptions fileNames o =
    finish_run s (while_loop (pre ++ skipn 1 rest) (List.length pre) o1) /\
  (forall o', _resolveAlgorithmOptions fileNames o = (o', Return tt) ->
     ~ In t (tokens (algorithmOptions o'))).
Proof.
  intros Hs Hr Ht.
  pose proof (body_ignored_binary pre t rest o1 Ht) as Hb.
  pose proof (reaches_next _ _ _ _ _ _ _ _ _ Hr Hb) as Hr'.
  repeat split; [exact Hb | exact Hr' | now apply resolve_reaches |].
  intros o' Hrun Hin.
  apply (resolve_leaves_unrecognised _ _ _ _ Hrun) in Hin.
  unfold recognised in Hin. rewrite Ht in Hin.
  rewrite ?orb_true_r in Hin. discriminate.
Qed.

(** An instance of C3 as amended. *)
Lemma ignored_binary_flag_removed_witness :
  let o := mkOptions VNone VNone VNone VNone (VStr "--very-fast -x /idx/ref -N 1") in
  body ["--very-fast"; "-x"; "/idx/ref"; "-N"; "1"] 1 o =
    (o, Return (["--very-fast"; "-N"; "1"], 1)) /\
  forall o', _resolveAlgorithmOptions (mkFiles "/r/ref.fa" "/q/q.fa" "/o/out.sam") o =
             (o', Return tt) ->
             ~ In "-x" (tokens (algorithmOptions o')).
Proof.
  intros o.
  assert (Hr : Reaches (split " " "--very-fast -x /idx/ref -N 1") o
                 (["--very-fast"] ++ "-x" :: ["/idx/ref"; "-N"; "1"])
                 (List.length ["--very-fast"]) o).
  { eapply reaches_step; [apply reaches_start | cbn; lia | reflexivity]. }
  destruct (ignored_binary_flag_removed (mkFiles "/r/ref.fa" "/q/q.fa" "/o/out.sam")
              o "--very-fast -x /idx/ref -N 1" ["--very-fast"] "-x"
              ["/idx/ref"; "-N"; "1"] o eq_refl Hr eq_refl)
    as (H1 & _ & _ & H2).
  split; [exact H1 | exact H2].
Defined.

(** C4 fails as stated: with options {maxHits: 5, algorithmOptions:
    "-x -k 6"} the string holds [-k] followed by 6, which differs from 5, and
    the call returns without an error: [-k] was deleted as the value of [-x]. *)
Lemma conflict_not_raised_for_flag_taken_as_value :
  _resolveAlgorithmOptions (mkFiles "/r/ref.fa" "/q/q.fa" "/o/out.sam")
    (mkOptions (VInt 5) VNone VNone VNone (VStr "-x -k 6")) =
  (mkOptions (VInt 5) VNone VNone VNone (VStr "6"), Return tt).
Proof. reflexivity. Qed.

(** C4, amended. When the scan is at a [-k] token followed by an integer
    token N and [maxHits] holds an integer other than N, the call raises a
    [ValueError] whose message ends with the conflict text, which names the
    flag and the option; [algorithmOptions] is as before the call.  The same
    holds for [-L] and [minAnchorSize].  The reconciler only reads and writes
    the options object, there is no file system in its state. *)
Theorem cross_checked_flag_conflict
    fileNames o s pre flag optname field msg tok rest o1 N M :
  algorithmOptions o = VStr s ->
  Reaches (split " " s) o (pre ++ flag :: tok :: rest) (List.length pre) o1 ->
  In (flag, optname, field, msg) cross_checked ->
  int (VStr tok) = Return N ->
  int (field o) = Return M ->
  M <> N ->
  _resolveAlgorithmOptions fileNames o =
    (o1, Raise (ParsingError s (ValueError msg))) /\
  message (ParsingError s (ValueError msg)) = Some (parsingErrMsg s ++ msg) /\
  index 0 flag msg <> None /\ index 0 optname msg <> None /\
  algorithmOptions o1 = VStr s /\ field o1 = field o.
Proof.
  intros Hs Hr Hin Htok Hfield Hne.
  pose proof (reaches_frame _ _ _ _ _ Hr) as (Fk & FL & _ & Fao).
  assert (Hf : field o1 = field o).
  { cbn in Hin. decompose [or] Hin; try contradiction;
      match goal with E : _ = (_, _, _, _) |- _ => inversion E; subst end;
      assumption. }
  split.
  - rewrite (resolve_reaches _ _ _ _ _ _ Hs Hr), while_loop_at.
    rewrite (body_cross_checked pre flag optname field msg tok rest o1 N M Hin Htok)
      by (now rewrite Hf).
    apply Z.eqb_neq in Hne. rewrite Hne. reflexivity.
  - split; [reflexivity|].
    repeat split; try congruence;
      cbn in Hin; decompose [or] Hin; try contradiction;
      match goal with E : _ = (_, _, _, _) |- _ => inversion E; subst end;
      vm_compute; discriminate.
Qed.

(** An instance of C4 as amended: [-L 9] after an unrecognised token, with
    [minAnchorSize] holding "7". *)
Lemma cross_checked_flag_conflict_witness :
  let o := mkOptions (VInt 5) (VStr "7") VNone VNone (VStr "--very-fast -L 9") in
  _resolveAlgorithmOptions (mkFiles "/r/ref.fa" "/q/q.fa" "/o/out.sam") o =
    (o, Raise (ParsingError "--very-fast -L 9" (ValueError conflict_L))).
Proof.
  intros o.
  assert (Hr : Reaches (split " " "--very-fast -L 9") o
                 (["--very-fast"] ++ "-L" :: "9" :: [])
                 (List.length ["--very-fast"]) o).
  { eapply reaches_step; [apply reaches_start | cbn; lia | reflexivity]. }
  refine (proj1 (cross_checked_flag_conflict
                   (mkFiles "/r/ref.fa" "/q/q.fa" "/o/out.sam") o "--very-fast -L 9"
                   ["--very-fast"] "-L" "--minAnchorSize" minAnchorSize conflict_L
                   "9" [] o 9%Z 7%Z eq_refl Hr _ eq_refl eq_refl _)).
  - right. left. reflexivity.
  - discriminate.
Defined.

(** X15. When the scan is at a token of {--version, --help}, the iteration
    deletes that one token and nothing after it, raises nothing, writes no
    option and leaves the index where it is, so that a unitary flag right
    after it is deleted by the next iteration.  The outcome of the call is
    that of the scan carried on from there; when every token after the flag
    is unrecognised or another unitary flag, the call returns with the tokens
    that are no unitary flag joined by blanks.  After a call that returns, the
    flag is not among the tokens of [algorithmOptions]. *)
Theorem unitary_flag_removed fileNames o s pre t rest o1 :
  algorithmOptions o = VStr s ->
  Reaches (split " " s) o (pre ++ t :: rest) (List.length pre) o1 ->
  mem t ignoredUnitaryOptions = true ->
  body (pre ++ t :: rest) (List.length pre) o1 =
    (o1, Return ((pre ++ rest)%list, List.length pre)) /\
  Reaches (split " " s) o (pre ++ rest) (List.length pre) o1 /\
  (forall t2 rest2, rest = t2 :: rest2 -> mem t2 ignoredUnitaryOptions = true ->
     Reaches (split " " s) o (pre ++ rest2) (List.length pre) o1) /\
  _resolveAlgorithmOptions fileNames o =
    finish_run s (while_loop (pre ++ rest) (List.length pre) o1) /\
  (forall o2 items,
     while_loop (pre ++ rest) (List.length pre) o1 = (o2, Return items) ->
     _resolveAlgorithmOptions fileNames o =
     (mkOptions (maxHits o2) (minAnchorSize o2) (nproc o2) (seed o2)
        (VStr (Py.join " " items)), Return tt)) /\
  (Forall (fun w => recognised w = false \/ mem w ignoredUnitaryOptions = true) rest ->
   _resolveAlgorithmOptions fileNames o =
   (mkOptions (maxHits o1) (minAnchorSize o1) (nproc o1) (seed o1)
      (VStr (Py.join " "
         (pre ++ filter (fun w => negb (mem w ignoredUnitaryOptions)) rest))),
    Return tt)) /\
  (forall o', _resolveAlgorithmOptions fileNames o = (o', Return tt) ->
     ~ In t (tokens (algorithmOptions o'))).
Proof.
  intros Hs Hr Ht.
  pose proof (body_ignored_unitary pre t rest o1 Ht) as Hb.
  pose proof (reaches_next _ _ _ _ _ _ _ _ _ Hr Hb) as Hr'.
  assert (Hrun : _resolveAlgorithmOptions fileNames o =
                 finish_run s (while_loop (pre ++ rest) (List.length pre) o1))
    by now apply resolve_reaches.
  repeat split; [exact Hb | exact Hr' | | exact Hrun | | |].
  - intros t2 rest2 -> Ht2.
    exact (reaches_next _ _ _ _ _ _ _ _ _ Hr'
             (body_ignored_unitary pre t2 rest2 o1 Ht2)).
  - intros o2 items Hloop. rewrite Hrun, Hloop. reflexivity.
  - intros Hall. rewrite Hrun, (while_loop_harmless rest pre o1 Hall). reflexivity.
  - intros o' Hret Hin.
    apply (resolve_leaves_unrecognised _ _ _ _ Hret) in Hin.
    unfold recognised in Hin. rewrite Ht in Hin.
    rewrite ?orb_true_r in Hin. discriminate.
Qed.

(** An instance of X15: two unitary flags next to each other. *)
Lemma unitary_flag_removed_witness :
  let o := mkOptions VNone VNone VNone VNone (VStr "-N 1 --help --version -D 20") in
  body ["-N"; "1"; "--help"; "--version"; "-D"; "20"] 2 o =
    (o, Return (["-N"; "1"; "--version"; "-D"; "20"], 2)) /\
  _resolveAlgorithmOptions (mkFiles "/r/ref.fa" "/q/q.fa" "/o/out.sam") o =
    (mkOptions VNone VNone VNone VNone (VStr "-N 1 -D 20"), Return tt).
Proof.
  intros o.
  assert (Hr : Reaches (split " " "-N 1 --help --version -D 20") o
                 (["-N"; "1"] ++ "--help" :: ["--version"; "-D"; "20"])
                 (List.length ["-N"; "1"]) o).
  { apply (reaches_step _ _ ["-N"; "1"; "--help"; "--version"; "-D"; "20"] 1 o);
      [|cbn; lia|reflexivity].
    apply (reaches_step _ _ ["-N"; "1"; "--help"; "--version"; "-D"; "20"] 0 o);
      [|cbn; lia|reflexivity].
    apply reaches_start. }
  destruct (unitary_flag_removed (mkFiles "/r/ref.fa" "/q/q.fa" "/o/out.sam")
              o "-N 1 --help --version -D 20" ["-N"; "1"] "--help"
              ["--version"; "-D"; "20"] o eq_refl Hr eq_refl)
    as (H1 & _ & _ & _ & _ & H2 & _).
  split; [exact H1 | apply H2].
  apply Forall_cons; [right; reflexivity|].
  apply Forall_cons; [left; reflexivity|].
  apply Forall_cons; [left; reflexivity|].
  apply Forall_nil.
Defined.

(** C5 (the code departs from it). A raw string with a unitary flag and no
    conflicting pair does not always go through: when the scan, having deleted
    the unitary flag and resumed at the same index, is at a [-p] token with an
    integer value and [nproc] is already set, the [-p] branch reads the
    attribute [npoc] (the misspelling behind C1) and the call raises;
    [algorithmOptions] then still holds the raw string, unitary flag
    included. *)
Theorem unitary_flag_then_p_raises fileNames o s pre t tok rest o1 N :
  algorithmOptions o = VStr s ->
  Reaches (split " " s) o (pre ++ t :: "-p" :: tok :: rest) (List.length pre) o1 ->
  mem t ignoredUnitaryOptions = true ->
  int (VStr tok) = Return N ->
  nproc o1 <> VNone ->
  body (pre ++ t :: "-p" :: tok :: rest) (List.length pre) o1 =
    (o1, Return ((pre ++ "-p" :: tok :: rest)%list, List.length pre)) /\
  Reaches (split " " s) o (pre ++ "-p" :: tok :: rest) (List.length pre) o1 /\
  _resolveAlgorithmOptions fileNames o =
    (o1, Raise (ParsingError s (AttributeError "npoc"))) /\
  algorithmOptions o1 = VStr s.
Proof.
  intros Hs Hr Ht Htok Hn.
  pose proof (body_ignored_unitary pre t ("-p" :: tok :: rest) o1 Ht) as Hb.
  pose proof (reaches_next _ _ _ _ _ _ _ _ _ Hr Hb) as Hr'.
  repeat split; [exact Hb | exact Hr' | |].
  - rewrite (resolve_reaches _ _ _ _ _ _ Hs Hr'), while_loop_at,
      (body_p pre tok rest o1 N Htok).
    destruct (nproc o1); [congruence | reflexivity | reflexivity].
  - apply reaches_frame in Hr. destruct Hr as (_ & _ & _ & ->). exact Hs.
Qed.

(** C5 at options {nproc: 4, algorithmOptions: "--help -p 8"}. *)
Lemma unitary_flag_then_p_raises_witness :
  let o := mkOptions VNone VNone (VInt 4) VNone (VStr "--help -p 8") in
  _resolveAlgorithmOptions (mkFiles "/r/ref.fa" "/q/q.fa" "/o/out.sam") o =
    (o, Raise (ParsingError "--help -p 8" (AttributeError "npoc"))) /\
  algorithmOptions o = VStr "--help -p 8".
Proof.
  intros o.
  refine (proj2 (proj2 (unitary_flag_then_p_raises
            (mkFiles "/r/ref.fa" "/q/q.fa" "/o/out.sam") o "--help -p 8"
            [] "--help" "8" [] o 8%Z
            eq_refl (reaches_start _ _) eq_refl eq_refl _))).
  discriminate.
Defined.

(** * Further properties of the option reconciler *)

Lemma recognised_false_inv t :
  recognised t = false ->
  t <> "-k" /\ t <> "-L" /\ t <> "-p" /\
  ~ In t ignoredBinaryOptions /\ ~ In t ignoredUnitaryOptions.
Proof.
  unfold recognised. intros H.
  repeat (apply orb_false_elim in H; destruct H as [H ?]).
  repeat split;
    try (apply String.eqb_neq; assumption);
    intros Hin; apply mem_In in Hin; congruence.
Qed.

(** X1. After a call that returns, [algorithmOptions] holds none of [-k],
    [-L], [-p], none of the ignored binary flags and none of the ignored
    unitary flags. *)
Theorem resolve_strips_recognised fileNames o o' t :
  _resolveAlgorithmOptions fileNames o = (o', Return tt) ->
  In t (tokens (algorithmOptions o')) ->
  t <> "-k" /\ t <> "-L" /\ t <> "-p" /\
  ~ In t ignoredBinaryOptions /\ ~ In t ignoredUnitaryOptions.
Proof.
  intros Hrun Hin. apply recognised_false_inv.
  exact (resolve_leaves_unrecognised fileNames o o' t Hrun Hin).
Qed.

Lemma resolve_strips_recognised_witness :
  "--very-fast" <> "-k" /\ "--very-fast" <> "-L" /\ "--very-fast" <> "-p" /\
  ~ In "--very-fast" ignoredBinaryOptions /\
  ~ In "--very-fast" ignoredUnitaryOptions.
Proof.
  refine (resolve_strips_recognised
            (mkFiles "/r/ref.fa" "/q/q.fa" "/o/out.sam")
            (mkOptions (VInt 5) VNone VNone VNone (VStr "-k 5 --very-fast -S out.sam"))
            (mkOptions (VInt 5) VNone VNone VNone (VStr "--very-fast"))
            "--very-fast" eq_refl _).
  left. reflexivity.
Defined.

Lemma split_nonempty sep s : split sep s <> [].
Proof.
  destruct s as [|c s]; cbn; [discriminate|].
  destruct (Ascii.eqb c sep); [discriminate|].
  destruct (split sep s); discriminate.
Qed.

(** [" ".join(s.split(" ")) == s] *)
Lemma join_split s : Py.join " " (split " " s) = s.
Proof.
  induction s as [|c s IH]; [reflexivity|].
  cbn [split]. pose proof (split_nonempty " " s) as Hne.
  destruct (Ascii.eqb c " ") eqn:Ec.
  - apply Ascii.eqb_eq in Ec. subst c.
    destruct (split " " s) as [|w ws]; [congruence|].
    change (Py.join " " ("" :: w :: ws)) with (String " " (Py.join " " (w :: ws))).
    now rewrite IH.
  - destruct (split " " s) as [|w ws]; [congruence|].
    rewrite <- IH. destruct ws; reflexivity.
Qed.

Lemma filter_unrecognised l :
  Forall (fun w => recognised w = false) l ->
  filter (fun w => negb (mem w ignoredUnitaryOptions)) l = l.
Proof.
  induction 1 as [|w l Hw _ IH]; [reflexivity|].
  cbn [filter]. unfold recognised in Hw.
  apply orb_false_elim in Hw. destruct Hw as [_ Hu].
  rewrite Hu. cbn [negb]. now rewrite IH.
Qed.

Lemma while_loop_unrecognised items o :
  Forall (fun w => recognised w = false) items ->
  while_loop items 0 o = (o, Return items).
Proof.
  intros Hall.
  pose proof (while_loop_harmless items [] o) as H. cbn [app List.length] in H.
  rewrite H.
  - now rewrite filter_unrecognised.
  - eapply Forall_impl; [|exact Hall]. cbn. auto.
Qed.

Lemma set_algorithmOptions_same o s :
  algorithmOptions o = VStr s ->
  set_algorithmOptions (VStr s) o = (o, Return tt).
Proof.
  destruct o as [a b c d e]. cbn. intros ->. reflexivity.
Qed.

Lemma resolve_fixed fileNames o s :
  algorithmOptions o = VStr s ->
  Forall (fun w => recognised w = false) (split " " s) ->
  _resolveAlgorithmOptions fileNames o = (o, Return tt).
Proof.
  intros Hs Hall.
  rewrite (resolve_eq fileNames o s Hs), (while_loop_unrecognised _ o Hall).
  cbn [finish_run]. rewrite join_split.
  now apply set_algorithmOptions_same.
Qed.

(** X2. A raw string in which the scan recognises no token goes through the
    reconciler unchanged: the call returns and every field, [algorithmOptions]
    included, is what it was (blanks are kept, as splitting on single blanks
    and joining with single blanks are inverse). *)
Theorem resolve_unrecognised_identity fileNames o s :
  algorithmOptions o = VStr s ->
  Forall (fun w => recognised w = false) (split " " s) ->
  _resolveAlgorithmOptions fileNames o = (o, Return tt) /\
  Py.join " " (split " " s) = s.
Proof.
  intros Hs Hall. split.
  - exact (resolve_fixed fileNames o s Hs Hall).
  - apply join_split.
Qed.

Lemma resolve_unrecognised_identity_witness :
  let o := mkOptions (VInt 5) VNone (VInt 4) VNone (VStr "--very-fast  -N 1 ") in
  _resolveAlgorithmOptions (mkFiles "/r/ref.fa" "/q/q.fa" "/o/out.sam") o =
  (o, Return tt) /\
  Py.join " " (split " " "--very-fast  -N 1 ") = "--very-fast  -N 1 ".
Proof.
  intros o.
  apply (resolve_unrecognised_identity _ o "--very-fast  -N 1 " eq_refl).
  repeat (apply Forall_cons; [reflexivity|]). apply Forall_nil.
Defined.

(** X3. The reconciler is idempotent: once a call has returned, a second call
    on the resulting options returns and changes nothing. *)
Theorem resolve_idempotent fileNames fileNames' o o' :
  _resolveAlgorithmOptions fileNames o = (o', Return tt) ->
  _resolveAlgorithmOptions fileNames' o' = (o', Return tt).
Proof.
  intros Hrun.
  destruct (algorithmOptions o') as [| z | s'] eqn:E'.
  - destruct (resolve_cases fileNames' o') as [[_ R] | [[z [E _]] | [s [E _]]]];
      [exact R | congruence | congruence].
  - exfalso.
    destruct (resolve_cases fileNames o) as [[E R] | [[z0 [_ R]] | [s [_ R]]]];
      rewrite R in Hrun.
    + inversion Hrun; subst. congruence.
    + discriminate.
    + destruct (while_loop (split " " s) 0 o) as [o1 [items|e]];
        cbn in Hrun; inversion Hrun; subst; discriminate.
  - apply (resolve_fixed fileNames' o' s' E').
    apply Forall_forall. intros t Hin.
    apply (resolve_leaves_unrecognised fileNames o o' t Hrun).
    now rewrite E'.
Qed.

Lemma resolve_idempotent_witness :
  let o' := mkOptions VNone VNone (VInt 3) VNone (VStr "--local") in
  _resolveAlgorithmOptions (mkFiles "/r/ref.fa" "/q/q.fa" "/o/out.sam") o' =
  (o', Return tt).
Proof.
  intros o'.
  exact (resolve_idempotent
           (mkFiles "/r/ref.fa" "/q/q.fa" "/o/out.sam")
           (mkFiles "/r/ref.fa" "/q/q.fa" "/o/out.sam")
           (mkOptions VNone VNone VNone VNone (VStr "--help -p 3 --local -q reads.fq"))
           o' eq_refl).
Defined.

Ltac resolve_body_goal :=
  break_body; cbn; auto.

(** An iteration changes the options only by filling an unset [nproc]. *)
Lemma body_writes items i o o' r :
  body items i o = (o', r) ->
  o' = o \/ (nproc o = VNone /\ exists N, o' = with_nproc o N).
Proof.
  intros H. change o' with (fst (o', r)). rewrite <- H. clear H.
  unfold with_nproc. resolve_body_goal; right; split; eauto.
  destruct (nproc o); [reflexivity | discriminate | discriminate].
Qed.

Lemma while_loop_writes items i o :
  let o' := fst (while_loop items i o) in
  o' = o \/ (nproc o = VNone /\ exists N, o' = with_nproc o N).
Proof.
  cbv zeta.
  apply (while_loop_rule
           (fun _ _ o1 => o1 = o \/ (nproc o = VNone /\ exists N, o1 = with_nproc o N))
           (fun r => fst r = o \/
                     (nproc o = VNone /\ exists N, fst r = with_nproc o N)));
    [auto | | | auto].
  - intros items1 i1 o1 o2 e HP _ Hb. cbn [fst].
    apply body_writes in Hb.
    destruct Hb as [-> | [Hn [N ->]]]; [exact HP|].
    destruct HP as [-> | [_ [N' ->]]]; [eauto | discriminate].
  - intros items1 i1 o1 o2 items2 i2 HP _ Hb.
    apply body_writes in Hb.
    destruct Hb as [-> | [Hn [N ->]]]; [exact HP|].
    destruct HP as [-> | [_ [N' ->]]]; [eauto | discriminate].
Qed.

(** X4. Whatever the outcome of the call, the reconciler leaves [maxHits],
    [minAnchorSize] and [seed] as they were, and [nproc] too unless it was
    unset, in which case it may end up holding an integer: an [nproc] that is
    set is never changed. *)
Theorem resolve_fills_only_unset_nproc fileNames o :
  let o' := fst (_resolveAlgorithmOptions fileNames o) in
  maxHits o' = maxHits o /\ minAnchorSize o' = minAnchorSize o /\
  seed o' = seed o /\
  (nproc o' = nproc o \/ (nproc o = VNone /\ exists N, nproc o' = VInt N)).
Proof.
  cbv zeta. pose proof (resolve_frame fileNames o) as F. cbv zeta in F.
  destruct F as (F1 & F2 & F3). repeat split; try assumption.
  destruct (resolve_cases fileNames o) as [[_ ->] | [[z [_ ->]] | [s [_ ->]]]];
    cbn [fst]; auto.
  pose proof (while_loop_writes (split " " s) 0 o) as W. cbv zeta in W.
  destruct (while_loop (split " " s) 0 o) as [o1 [items|e]]; cbn in W |- *;
    (destruct W as [-> | [Hn [N ->]]];
     [left; reflexivity | right; split; [assumption | exists N; reflexivity]]).
Qed.

(** X5. When the scan is at a [-p] token followed by an integer token N and
    [nproc] is unset, the iteration stores N in [nproc], deletes both tokens
    and the scan goes on at the same index; if the call then returns, [nproc]
    is N at the end and the command of [_toCmd] carries [-p N]. *)
Theorem p_flag_fills_unset_nproc fileNames tempFileManager o s pre tok rest o1 N :
  algorithmOptions o = VStr s ->
  Reaches (split " " s) o (pre ++ "-p" :: tok :: rest) (List.length pre) o1 ->
  int (VStr tok) = Return N ->
  nproc o1 = VNone ->
  Reaches (split " " s) o (pre ++ rest) (List.length pre) (with_nproc o1 N) /\
  (forall o', _resolveAlgorithmOptions fileNames o = (o', Return tt) ->
     nproc o' = VInt N /\
     _toCmd o' fileNames tempFileManager =
       "bowtie2 " ++ maxHits_segment (maxHits o') ++ (" -p " ++ str_of_Z N) ++
       algorithmOptions_segment (algorithmOptions o') ++ seed_segment (seed o') ++
       required_segment
         (bt2BaseName (defaultRootDir tempFileManager) (targetFileName fileNames))
         (queryFileName fileNames) (alignerSamOut fileNames)).
Proof.
  intros Hs Hr Htok Hn.
  pose proof (p_flag_sets_unset_nproc pre tok rest o1 N Htok Hn) as Hb.
  fold (with_nproc o1 N) in Hb.
  pose proof (reaches_next _ _ _ _ _ _ _ _ _ Hr Hb) as Hr'.
  split; [exact Hr'|].
  intros o' Hrun.
  assert (Hp : nproc o' = VInt N).
  { rewrite (resolve_reaches fileNames o s _ _ _ Hs Hr') in Hrun.
    pose proof (while_loop_writes (pre ++ rest) (List.length pre)
                  (with_nproc o1 N)) as W. cbv zeta in W.
    destruct (while_loop (pre ++ rest) (List.length pre) (with_nproc o1 N))
      as [o2 [items|e]]; cbn in Hrun, W; [|discriminate].
    inversion Hrun; subst; clear Hrun. cbn.
    destruct W as [-> | [Hnone _]]; [reflexivity | discriminate Hnone]. }
  split; [exact Hp|].
  rewrite toCmd_segments, Hp. reflexivity.
Qed.

Lemma p_flag_fills_unset_nproc_witness :
  let fileNames := mkFiles "/r/ref.fa" "/q/q.fa" "/o/out.sam" in
  let o' := mkOptions VNone VNone (VInt 8) VNone (VStr "--local") in
  nproc o' = VInt 8 /\
  _toCmd o' fileNames (mkManager "/tmp" []) =
    "bowtie2  -p 8 --local -x /tmp/ref -f /q/q.fa -S /o/out.sam ".
Proof.
  intros fileNames o'.
  pose (o := mkOptions VNone VNone VNone VNone (VStr "--local -p 8")).
  assert (Hr : Reaches (split " " "--local -p 8") o
                 (["--local"] ++ "-p" :: "8" :: []) (List.length ["--local"]) o).
  { apply (reaches_step _ _ ["--local"; "-p"; "8"] 0 o);
      [apply reaches_start | cbn; lia | reflexivity]. }
  exact (proj2 (p_flag_fills_unset_nproc fileNames (mkManager "/tmp" []) o
                  "--local -p 8" ["--local"] "8" [] o 8%Z
                  eq_refl Hr eq_refl eq_refl) o' eq_refl).
Defined.

(** ** Errors of the scan *)

Lemma body_missing_value pre t o :
  In t valued_flags ->
  body (pre ++ [t]) (List.length pre) o = (o, Raise IndexError).
Proof.
  intros Hin. at_token. rewrite getitem_next.
  cbn in Hin. decompose [or] Hin; subst; try contradiction; reflexivity.
Qed.

Lemma body_malformed_value pre t tok rest o :
  In t valued_flags ->
  int_of_string tok = None ->
  body (pre ++ t :: tok :: rest) (List.length pre) o =
  (o, Raise (IntLiteralError tok)).
Proof.
  intros Hin Htok. at_token. rewrite getitem_next.
  cbn in Hin. decompose [or] Hin; subst; try contradiction;
    cbn [String.eqb Ascii.eqb Bool.eqb int]; rewrite Htok; reflexivity.
Qed.

(** X6. When the scan is at [-k], [-L] or [-p] and that token is the last
    one, the call raises the parsing error with an index error as its cause
    (for [-p] too, whatever [nproc] holds), and the options are left as the
    scan found them. *)
Theorem valued_flag_without_value_raises fileNames o s pre t o1 :
  algorithmOptions o = VStr s ->
  Reaches (split " " s) o (pre ++ [t]) (List.length pre) o1 ->
  In t valued_flags ->
  _resolveAlgorithmOptions fileNames o =
    (o1, Raise (ParsingError s IndexError)) /\
  algorithmOptions o1 = VStr s.
Proof.
  intros Hs Hr Ht. split.
  - rewrite (resolve_reaches _ _ _ _ _ _ Hs Hr), while_loop_at,
      (body_missing_value pre t o1 Ht). reflexivity.
  - apply reaches_frame in Hr. destruct Hr as (_ & _ & _ & ->). exact Hs.
Qed.

Lemma valued_flag_without_value_raises_witness :
  let o := mkOptions VNone VNone (VInt 4) VNone (VStr "--local -p") in
  _resolveAlgorithmOptions (mkFiles "/r/ref.fa" "/q/q.fa" "/o/out.sam") o =
    (o, Raise (ParsingError "--local -p" IndexError)) /\
  algorithmOptions o = VStr "--local -p".
Proof.
  intros o.
  assert (Hr : Reaches (split " " "--local -p") o
                 (["--local"] ++ ["-p"]) (List.length ["--local"]) o).
  { apply (reaches_step _ _ ["--local"; "-p"] 0 o);
      [apply reaches_start | cbn; lia | reflexivity]. }
  refine (valued_flag_without_value_raises
            (mkFiles "/r/ref.fa" "/q/q.fa" "/o/out.sam") o "--local -p"
            ["--local"] "-p" o eq_refl Hr _).
  right. right. left. reflexivity.
Defined.

(** X7. When the scan is at [-k], [-L] or [-p] and the next token, made of
    ASCII characters only, is no integer literal (it may be empty, after a
    doubled blank, or another flag), the call raises the parsing error with
    the failure of [int] on that token as its cause, before any option is
    compared or written. *)
Theorem valued_flag_with_bad_value_raises fileNames o s pre t tok rest o1 :
  algorithmOptions o = VStr s ->
  Reaches (split " " s) o (pre ++ t :: tok :: rest) (List.length pre) o1 ->
  In t valued_flags ->
  ascii_only tok = true ->
  int_of_string tok = None ->
  _resolveAlgorithmOptions fileNames o =
    (o1, Raise (ParsingError s (IntLiteralError tok))) /\
  algorithmOptions o1 = VStr s.
Proof.
  intros Hs Hr Ht _ Htok. split.
  - rewrite (resolve_reaches _ _ _ _ _ _ Hs Hr), while_loop_at,
      (body_malformed_value pre t tok rest o1 Ht Htok). reflexivity.
  - apply reaches_frame in Hr. destruct Hr as (_ & _ & _ & ->). exact Hs.
Qed.

Lemma valued_flag_with_bad_value_raises_witness :
  let o := mkOptions VNone VNone VNone VNone (VStr "-k 5_ -N 1") in
  _resolveAlgorithmOptions (mkFiles "/r/ref.fa" "/q/q.fa" "/o/out.sam") o =
    (o, Raise (ParsingError "-k 5_ -N 1" (IntLiteralError "5_"))) /\
  algorithmOptions o = VStr "-k 5_ -N 1".
Proof.
  intros o.
  refine (valued_flag_with_bad_value_raises
            (mkFiles "/r/ref.fa" "/q/q.fa" "/o/out.sam") o "-k 5_ -N 1"
            [] "-k" "5_" ["-N"; "1"] o eq_refl (reaches_start _ _) _ eq_refl eq_refl).
  left. reflexivity.
Defined.

(** X8. When the scan is at [-k] (or [-L]) followed by an integer token N and
    [maxHits] (or [minAnchorSize]) holds that same integer, as a number or as
    a string, there is no conflict: both tokens are deleted, no option is
    written and the scan goes on at the same index. *)
Theorem cross_checked_flag_agrees
    fileNames o s pre flag optname field msg tok rest o1 N :
  algorithmOptions o = VStr s ->
  Reaches (split " " s) o (pre ++ flag :: tok :: rest) (List.length pre) o1 ->
  In (flag, optname, field, msg) cross_checked ->
  int (VStr tok) = Return N ->
  int (field o) = Return N ->
  body (pre ++ flag :: tok :: rest) (List.length pre) o1 =
    (o1, Return ((pre ++ rest)%list, List.length pre)) /\
  Reaches (split " " s) o (pre ++ rest) (List.length pre) o1 /\
  (Forall (fun w => recognised w = false \/ mem w ignoredUnitaryOptions = true) rest ->
   _resolveAlgorithmOptions fileNames o =
   (mkOptions (maxHits o1) (minAnchorSize o1) (nproc o1) (seed o1)
      (VStr (Py.join " "
         (pre ++ filter (fun w => negb (mem w ignoredUnitaryOptions)) rest))),
    Return tt)).
Proof.
  intros Hs Hr Hin Htok Hfield.
  pose proof (reaches_frame _ _ _ _ _ Hr) as (Fk & FL & _ & _).
  assert (Hf : field o1 = field o).
  { cbn in Hin. decompose [or] Hin; try contradiction;
      match goal with E : _ = (_, _, _, _) |- _ => inversion E; subst end;
      assumption. }
  assert (Hb : body (pre ++ flag :: tok :: rest) (List.length pre) o1 =
               (o1, Return ((pre ++ rest)%list, List.length pre))).
  { rewrite (body_cross_checked pre flag optname field msg tok rest o1 N N Hin Htok)
      by (now rewrite Hf).
    now rewrite Z.eqb_refl. }
  pose proof (reaches_next _ _ _ _ _ _ _ _ _ Hr Hb) as Hr'.
  repeat split; [exact Hb | exact Hr' |].
  intros Hall.
  rewrite (resolve_reaches _ _ _ _ _ _ Hs Hr'), (while_loop_harmless rest pre o1 Hall).
  reflexivity.
Qed.

Lemma cross_checked_flag_agrees_witness :
  let o := mkOptions (VStr "5") VNone VNone VNone (VStr "-k 5 --local") in
  _resolveAlgorithmOptions (mkFiles "/r/ref.fa" "/q/q.fa" "/o/out.sam") o =
  (mkOptions (VStr "5") VNone VNone VNone (VStr "--local"), Return tt).
Proof.
  intros o.
  refine (proj2 (proj2 (cross_checked_flag_agrees
            (mkFiles "/r/ref.fa" "/q/q.fa" "/o/out.sam") o "-k 5 --local"
            [] "-k" "--maxHits" maxHits conflict_k "5" ["--local"] o 5%Z
            eq_refl (reaches_start _ _) _ eq_refl eq_refl)) _).
  - left. reflexivity.
  - apply Forall_cons; [left; reflexivity | apply Forall_nil].
Defined.

Lemma int_raises v e :
  int v = Raise e -> is_None v = false -> exists lit, e = IntLiteralError lit.
Proof.
  destruct v as [| z | s]; cbn; [discriminate | discriminate |].
  destruct (int_of_string s); [discriminate|].
  intros H _. inversion H. eauto.
Qed.

Lemma body_raises items i o o' e :
  body items i o = (o', Raise e) -> parse_cause e.
Proof.
  intros H.
  assert (G : match snd (body items i o) with
              | Raise e => parse_cause e
              | Return _ => True
              end).
  { unfold parse_cause. clear H. break_body; cbn [snd] in *; auto;
      repeat match goal with
             | E : Raise _ = Raise _ |- _ => inversion E; subst; clear E
             | E : Return _ = Raise _ |- _ => discriminate E
             | E : negb (_ =? "") = true |- _ => cbn in E; discriminate E
             | E : negb (is_None _) = true |- _ => apply negb_true_iff in E
             end;
      try solve [auto | right; right; right; left; eauto using int_raises]. }
  now rewrite H in G.
Qed.

Lemma while_loop_raises items i o o' e :
  while_loop items i o = (o', Raise e) -> parse_cause e.
Proof.
  intros H.
  pose proof (while_loop_rule
    (fun _ _ _ => True)
    (fun r => match snd r with Raise e => parse_cause e | Return _ => True end))
    as Rule.
  cbn [snd] in Rule.
  specialize (Rule ltac:(auto)
                   ltac:(intros ? ? ? ? ? _ _ Hb; exact (body_raises _ _ _ _ _ Hb))
                   ltac:(auto) items i o I).
  now rewrite H in Rule.
Qed.

(** X9. Every way the call can fail: on an [algorithmOptions] that is not a
    string, with the attribute error of [split]; otherwise with the parsing
    error, which carries the raw string as it was passed in, and whose cause
    is one of the two conflict messages, an index error (a flag without its
    value), the failure of [int] on a token or a field, or the attribute error
    of [npoc].  It never fails when [algorithmOptions] is unset. *)
Theorem resolve_failure_modes fileNames o o' e :
  _resolveAlgorithmOptions fileNames o = (o', Raise e) ->
  (exists z, algorithmOptions o = VInt z /\ e = AttributeError "split" /\ o' = o) \/
  (exists s cause,
     algorithmOptions o = VStr s /\ e = ParsingError s cause /\
     parse_cause cause /\ algorithmOptions o' = VStr s).
Proof.
  intros Hrun.
  destruct (resolve_cases fileNames o) as [[_ R] | [[z [E R]] | [s [E R]]]];
    rewrite R in Hrun.
  - discriminate.
  - left. exists z. inversion Hrun; subst. auto.
  - right.
    pose proof (while_loop_frame (split " " s) 0 o) as F. cbv zeta in F.
    destruct (while_loop (split " " s) 0 o) as [o1 [items|c]] eqn:Hloop;
      cbn in Hrun, F; [discriminate|].
    inversion Hrun; subst; clear Hrun.
    exists s, c. repeat split.
    + exact E.
    + exact (while_loop_raises _ _ _ _ _ Hloop).
    + destruct F as (_ & _ & _ & ->). exact E.
Qed.

Lemma resolve_failure_modes_witness :
  exists s cause,
    VStr "-L 12" = VStr s /\
    ParsingError "-L 12" (ValueError conflict_L) = ParsingError s cause /\
    parse_cause cause /\ VStr "-L 12" = VStr s.
Proof.
  destruct (resolve_failure_modes
              (mkFiles "/r/ref.fa" "/q/q.fa" "/o/out.sam")
              (mkOptions VNone (VInt 10) VNone VNone (VStr "-L 12"))
              (mkOptions VNone (VInt 10) VNone VNone (VStr "-L 12"))
              (ParsingError "-L 12" (ValueError conflict_L)) eq_refl)
    as [[z [E _]] | H]; [discriminate E | exact H].
Defined.

(** ** The tokens that are left *)

Lemma subseq_refl l : subseq l l.
Proof. induction l; constructor; assumption. Qed.

Lemma subseq_trans l1 l2 l3 : subseq l1 l2 -> subseq l2 l3 -> subseq l1 l3.
Proof.
  intros H12 H23. revert l1 H12.
  induction H23 as [|x l2 l3 _ IH|x l2 l3 _ IH]; intros l1 H12.
  - exact H12.
  - constructor. now apply IH.
  - inversion H12; subst; constructor; now apply IH.
Qed.

Lemma subseq_skipn n l : subseq (skipn n l) l.
Proof.
  revert l. induction n as [|n IH]; intros l; [apply subseq_refl|].
  destruct l as [|x l]; [constructor|]. cbn. constructor. apply IH.
Qed.

Lemma subseq_app_head l l1 l2 : subseq l1 l2 -> subseq (l ++ l1) (l ++ l2).
Proof. intros H. induction l; cbn; [assumption | now constructor]. Qed.

Lemma subseq_del_slice items i j : subseq (del_slice items i j) items.
Proof.
  unfold del_slice.
  rewrite <- (firstn_skipn i items) at 3.
  apply subseq_app_head.
  replace (Nat.max i j) with ((Nat.max i j - i) + i) by lia.
  rewrite <- skipn_skipn. apply subseq_skipn.
Qed.

Lemma subseq_In l1 l2 t : subseq l1 l2 -> In t l1 -> In t l2.
Proof.
  induction 1 as [|x l1 l2 _ IH|x l1 l2 _ IH]; cbn; intuition.
Qed.

Lemma while_loop_subseq items0 o0 o' items' :
  while_loop items0 0 o0 = (o', Return items') -> subseq items' items0.
Proof.
  intros H.
  pose proof (while_loop_rule
    (fun items _ _ => subseq items items0)
    (fun r => match snd r with Return items => subseq items items0 | Raise _ => True end))
    as Rule.
  cbn [snd] in Rule.
  assert (Hstep : forall items i o o1 items1 i1,
             subseq items items0 -> i < List.length items ->
             body items i o = (o1, Return (items1, i1)) -> subseq items1 items0).
  { intros items i o o1 items1 i1 HP _ Hb. apply body_return in Hb.
    destruct Hb as [item [_ [[_ [-> _]] | [_ [_ [-> | ->]]]]]];
      [assumption | |];
      (eapply subseq_trans; [apply subseq_del_slice | exact HP]). }
  specialize (Rule ltac:(auto) ltac:(intros; exact I) Hstep items0 0 o0
                   (subseq_refl items0)).
  now rewrite H in Rule.
Qed.

(** X10. The reconciler only deletes tokens: after a call that returns on a
    raw string, [algorithmOptions] is the blank-joined list of tokens that are
    left, which is the list of the original tokens with some left out and the
    order kept; no token is added, changed or moved. *)
Theorem resolve_keeps_subsequence fileNames o o' s :
  algorithmOptions o = VStr s ->
  _resolveAlgorithmOptions fileNames o = (o', Return tt) ->
  exists items,
    algorithmOptions o' = VStr (Py.join " " items) /\
    subseq items (split " " s) /\
    (forall t, In t items -> In t (split " " s)) /\
    (items <> [] -> tokens (algorithmOptions o') = items).
Proof.
  intros Hs Hrun. rewrite (resolve_eq fileNames o s Hs) in Hrun.
  destruct (while_loop (split " " s) 0 o) as [o1 [items|e]] eqn:Hloop;
    cbn in Hrun; [|discriminate].
  inversion Hrun; subst; clear Hrun. exists items. cbn [algorithmOptions].
  pose proof (while_loop_subseq _ _ _ _ Hloop) as Hsub.
  repeat split.
  - exact Hsub.
  - intros t. now apply subseq_In.
  - intros Hne. cbn [tokens]. apply split_join; [exact Hne|].
    apply (while_loop_leaves_unrecognised _ _ _ _ (split_nospace s) Hloop).
Qed.

Lemma resolve_keeps_subsequence_witness :
  exists items,
    VStr "--local -N 1" = VStr (Py.join " " items) /\
    subseq items (split " " "--local -k 5 -N 1 --help") /\
    (forall t, In t items -> In t (split " " "--local -k 5 -N 1 --help")) /\
    (items <> [] -> tokens (VStr "--local -N 1") = items).
Proof.
  exact (resolve_keeps_subsequence
           (mkFiles "/r/ref.fa" "/q/q.fa" "/o/out.sam")
           (mkOptions VNone VNone VNone VNone (VStr "--local -k 5 -N 1 --help"))
           (mkOptions VNone VNone VNone VNone (VStr "--local -N 1"))
           "--local -k 5 -N 1 --help" eq_refl eq_refl).
Defined.

(** X11. The minimum anchor size never reaches the command line: after a call
    of the reconciler that returns, no [-L] token is left in
    [algorithmOptions], and the command of [_toCmd] is the same whatever
    [minAnchorSize] holds. *)
Theorem minAnchorSize_not_emitted fileNames tempFileManager o o' v :
  _resolveAlgorithmOptions fileNames o = (o', Return tt) ->
  ~ In "-L" (tokens (algorithmOptions o')) /\
  _toCmd (mkOptions (maxHits o') v (nproc o') (seed o') (algorithmOptions o'))
         fileNames tempFileManager =
  _toCmd o' fileNames tempFileManager.
Proof.
  intros Hrun. split.
  - intros Hin. apply (resolve_leaves_unrecognised _ _ _ _ Hrun) in Hin.
    discriminate Hin.
  - rewrite !toCmd_segments. reflexivity.
Qed.

Lemma minAnchorSize_not_emitted_witness :
  let fileNames := mkFiles "/r/ref.fa" "/q/q.fa" "/o/out.sam" in
  let o' := mkOptions VNone (VInt 12) VNone VNone (VStr "--local") in
  ~ In "-L" (tokens (algorithmOptions o')) /\
  _toCmd (mkOptions VNone (VInt 99) VNone VNone (VStr "--local"))
         fileNames (mkManager "/tmp" []) =
  _toCmd o' fileNames (mkManager "/tmp" []).
Proof.
  intros fileNames o'.
  exact (minAnchorSize_not_emitted fileNames (mkManager "/tmp" [])
           (mkOptions VNone (VInt 12) VNone VNone (VStr "-L 12 --local"))
           o' (VInt 99) eq_refl).
Defined.

(** * Further properties of the index path resolver *)

Lemma append_inj_l a x y : a ++ x = a ++ y -> x = y.
Proof.
  induction a as [|c a IH]; cbn; [auto|]. intros H. inversion H. auto.
Qed.

(** X12. The six index files of a base name are pairwise different, and each
    of them is the base name followed by a dot and one of the six suffixes. *)
Theorem bt2IndexFiles_distinct baseName :
  NoDup (bt2IndexFiles baseName) /\
  forall f, In f (bt2IndexFiles baseName) ->
            exists ext, In ext exts /\ f = baseName ++ "." ++ ext.
Proof.
  split.
  - assert (Hexts : NoDup exts)
      by (unfold exts; repeat constructor; cbn; intuition discriminate).
    unfold bt2IndexFiles. induction Hexts as [|x l Hx _ IH]; cbn; constructor.
    + intros Hin. apply in_map_iff in Hin. destruct Hin as [y [Hy Hin]].
      cbn in Hy. apply append_inj_l in Hy. inversion Hy; subst. contradiction.
    + exact IH.
  - intros f Hin. unfold bt2IndexFiles in Hin. apply in_map_iff in Hin.
    destruct Hin as [ext [Hf Hin]]. exists ext. split; [exact Hin|].
    now rewrite <- Hf.
Qed.

Lemma rsplit_after_snd_lacks c s :
  lacks c (snd (path.rsplit_after c s)) = true.
Proof.
  induction s as [|a s IH]; cbn; [reflexivity|].
  destruct (path.rsplit_after c s) as [h t]. cbn [snd] in IH.
  destruct h.
  - destruct (Ascii.eqb a c) eqn:E; cbn; [assumption | now rewrite E].
  - assumption.
Qed.

Lemma rsplit_after_app c s :
  fst (path.rsplit_after c s) ++ snd (path.rsplit_after c s) = s.
Proof.
  induction s as [|a s IH]; cbn; [reflexivity|].
  destruct (path.rsplit_after c s) as [h t]. cbn [fst snd] in IH.
  destruct h.
  - cbn in IH. subst. destruct (Ascii.eqb a c); reflexivity.
  - cbn [fst snd append]. now rewrite <- IH.
Qed.

Lemma rsplit_after_fst_shape c s :
  fst (path.rsplit_after c s) = "" \/
  exists a, fst (path.rsplit_after c s) = a ++ String c "".
Proof.
  induction s as [|x s IH]; cbn; [now left|].
  destruct (path.rsplit_after c s) as [h t]. cbn [fst] in IH.
  destruct h as [|y h].
  - destruct (Ascii.eqb x c) eqn:E; [|now left].
    apply Ascii.eqb_eq in E. subst. right. now exists "".
  - right. destruct IH as [IH | [a IH]]; [discriminate|].
    exists (String x a). cbn. now rewrite IH.
Qed.

(** [root + ext == p] for [root, ext = path.splitext(p)] *)
Lemma splitext_app p :
  fst (path.splitext p) ++ snd (path.splitext p) = p.
Proof.
  unfold path.splitext.
  pose proof (rsplit_after_app "/" p) as Hp.
  destruct (path.rsplit_after "/" p) as [dir file]. cbn [fst snd] in Hp.
  pose proof (rsplit_after_app "." file) as Hf.
  pose proof (rsplit_after_fst_shape "." file) as Hs.
  destruct (path.rsplit_after "." file) as [h ext]. cbn [fst snd] in Hf, Hs.
  destruct h as [|y h]; [apply append_empty_r|].
  destruct Hs as [Hs | [a Hs]]; [discriminate|].
  rewrite Hs, substring_init.
  destruct (path.all_dots a); cbn [fst snd]; [apply append_empty_r|].
  rewrite <- Hp, <- Hf, Hs, !append_assoc. reflexivity.
Qed.

Lemma lacks_startswith_slash s :
  lacks "/" s = true -> path.startswith_slash s = false.
Proof.
  destruct s as [|c s]; [reflexivity|]. cbn [lacks]. intros H.
  apply andb_prop in H. destruct H as [H _]. apply negb_true_iff in H.
  unfold path.startswith_slash.
  destruct (Ascii.eqb_spec c "/"); [discriminate|].
  destruct c as [[] [] [] [] [] [] [] []]; try reflexivity. congruence.
Qed.

(** X13. The base name always lies directly in the working directory: it is
    the working directory, a slash unless the directory is empty or ends with
    one, and a stem without any slash that is an initial part of the last
    component of the reference path.  Whatever directories the reference path
    names, absolute or not, they do not show in the base name. *)
Theorem bt2BaseName_in_tempDir tempDir refFile :
  exists stem ext,
    path.basename refFile = stem ++ ext /\
    lacks "/" stem = true /\
    bt2BaseName tempDir refFile =
      if (tempDir =? "") || path.endswith_slash tempDir
      then tempDir ++ stem else tempDir ++ "/" ++ stem.
Proof.
  exists (fst (path.splitext (path.basename refFile))),
         (snd (path.splitext (path.basename refFile))).
  pose proof (splitext_app (path.basename refFile)) as Happ.
  assert (Hl : lacks "/" (fst (path.splitext (path.basename refFile))) = true).
  { pose proof (rsplit_after_snd_lacks "/" refFile) as Hb.
    fold (path.basename refFile) in Hb. rewrite <- Happ, lacks_app in Hb.
    now apply andb_prop in Hb. }
  repeat split; [now rewrite Happ | exact Hl |].
  unfold bt2BaseName, path.join.
  now rewrite (lacks_startswith_slash _ Hl).
Qed.

Lemma all_dots_lacks_slash d : path.all_dots d = true -> lacks "/" d = true.
Proof.
  induction d as [|c d IH]; cbn; [reflexivity|]. intros H.
  apply andb_prop in H. destruct H as [Hc Hd].
  apply Ascii.eqb_eq in Hc. subst. now rewrite (IH Hd).
Qed.

Lemma all_dots_snoc d :
  path.all_dots d = true -> d <> "" ->
  exists d', d = d' ++ "." /\ path.all_dots d' = true.
Proof.
  induction d as [|c d IH]; [congruence|]. cbn [path.all_dots]. intros H _.
  apply andb_prop in H. destruct H as [Hc Hd].
  apply Ascii.eqb_eq in Hc. subst.
  destruct d as [|c' d'].
  - now exists "".
  - destruct (IH Hd ltac:(discriminate)) as [d1 [E H1]].
    exists (String "." d1). rewrite E. split; [reflexivity|].
    cbn. exact H1.
Qed.

Lemma splitext_no_extension dots name :
  path.all_dots dots = true ->
  lacks "." name = true -> lacks "/" name = true ->
  path.splitext (dots ++ name) = (dots ++ name, "").
Proof.
  intros Hd Hn Hs. unfold path.splitext.
  rewrite rsplit_after_lacks
    by (rewrite lacks_app, Hs, (all_dots_lacks_slash dots Hd); reflexivity).
  destruct dots as [|c dots'] eqn:E.
  - cbn [append]. now rewrite rsplit_after_lacks.
  - rewrite <- E in *.
    destruct (all_dots_snoc dots Hd ltac:(subst; discriminate)) as [d' [E' Hd']].
    rewrite E', append_assoc. cbn [append].
    rewrite rsplit_after_last by assumption.
    destruct (d' ++ String "." "") as [|x h] eqn:Eh; [now destruct d'|].
    now rewrite <- Eh, substring_init, Hd'.
Qed.

(** X14. A reference file whose name has no dot, or only leading dots (a
    hidden file such as ".ref"), has no extension to drop: the base name is
    the working directory joined with the whole file name. *)
Theorem bt2BaseName_no_extension tempDir dir dots name :
  dir_prefix dir = true ->
  path.all_dots dots = true ->
  lacks "." name = true -> lacks "/" name = true ->
  bt2BaseName tempDir (dir ++ dots ++ name) = path.join tempDir (dots ++ name).
Proof.
  intros Hdir Hd Hn Hs. unfold bt2BaseName.
  rewrite basename_of_file
    by (try assumption;
        rewrite lacks_app, Hs, (all_dots_lacks_slash dots Hd); reflexivity).
  now rewrite splitext_no_extension.
Qed.

Lemma bt2BaseName_no_extension_witness :
  bt2BaseName "/tmp" ("/data/" ++ "." ++ "ref") = "/tmp/.ref" /\
  bt2BaseName "/tmp/" ("" ++ "" ++ "genome") = "/tmp/genome".
Proof.
  split.
  - exact (bt2BaseName_no_extension "/tmp" "/data/" "." "ref"
             eq_refl eq_refl eq_refl eq_refl).
  - exact (bt2BaseName_no_extension "/tmp/" "" "" "genome"
             eq_refl eq_refl eq_refl eq_refl).
Defined.

